(** * k8sresolver: the stream watcher of streamer.go

    A shallow embedding of [streamWatcher.watch] and
    [streamWatcher.proxyEvents].  The two goroutines (the reconnect loop and
    the decode task started by [proxyEvents]) are embedded as program
    counters over a shared configuration; a schedule is a list of moves, each
    move letting one goroutine take one atomic step or letting the
    environment act (the context is cancelled, the consumer of [eventsCh]
    receives, [Decode] returns, the client answers). *)

From Stdlib Require Import ZArith String Ascii List Bool Lia Sorted.
From stdpp Require Import base list.
Import ListNotations.

Local Open Scope string_scope.
Local Open Scope list_scope.
Local Open Scope Z_scope.

(** ** Errors *)

Inductive numErrKind := ErrSyntax | ErrRange.

(** The error values the watcher handles.  [Wrap] is [errors.Wrap] of
    github.com/pkg/errors, [Errorf] is [errors.Errorf]; [NumError] is
    [*strconv.NumError]; [Failure] stands for any other error value produced
    outside this package (a JSON syntax error, a transport error of the
    client, an error of the reader). *)
Inductive error :=
| EOF
| ErrUnexpectedEOF
| Canceled
| Failure (msg : string)
| NumError (Func Num : string) (Err : numErrKind)
| Wrap (cause : error) (message : string)
| Errorf (message : string).

(** ** Data model *)

(** Modelled from the spec: the declaration of [targetEntry] is not in the
    sources at hand; spec section 3 gives it as service, namespace and a port
    that is a number, a name or unset (the test builds it with the fields
    [service], [port], [namespace] and the value [noTargetPort]). *)
Inductive targetPort :=
| noTargetPort
| portNumber (n : Z)
| portName (name : string).

Record targetEntry := {
  service : string;
  port : targetPort;
  namespace : string
}.

(** Modelled from the spec: the declarations of [endpoints], [metadata],
    [subset], [port] and [address] are not in the sources at hand; their
    fields are the ones the test constructs and spec section 6 lists in the
    wire format. *)
Record address := { IP : string }.
Record portEntry := { Port : Z; Name : string }.
Record subset := { Addresses : list address; Ports : list portEntry }.
Record metadata := { ResourceVersion : string }.
Record endpoints := { Metadata : metadata; Subsets : list subset }.

Definition eventType := string.

Definition added : eventType := "ADDED".
Definition modified : eventType := "MODIFIED".
Definition deleted : eventType := "DELETED".
Definition failed : eventType := "ERROR".

(** [event] of streamer.go; the field [Type] is spelled [Type_]. *)
Record event := { Type_ : eventType; Object : endpoints }.

(** Modelled from the spec: the declaration of [watchResult] is not in the
    sources at hand; streamer.go builds it with the fields [ep] (a pointer to
    an event, possibly nil) and [err] (an error, possibly nil). *)
Record watchResult := { ep : option event; err : option error }.

(** ** strconv.Atoi

    The Go standard library function, for a 64-bit [int]: an optional sign,
    then [ParseUint]'s loop over the bytes in base 10 with its overflow
    checks on a [uint64], then [ParseInt]'s range check. *)

Definition isDigit (c : ascii) : bool :=
  (48 <=? Z.of_nat (nat_of_ascii c)) && (Z.of_nat (nat_of_ascii c) <=? 57).

Definition digitVal (c : ascii) : Z := Z.of_nat (nat_of_ascii c) - 48.

Definition maxUint64 : Z := 2 ^ 64 - 1.

Fixpoint parseUintLoop (s : string) (n : Z) : Z * option numErrKind :=
  match s with
  | EmptyString => (n, None)
  | String c s' =>
      if negb (isDigit c) then (0, Some ErrSyntax)
      else if n >=? maxUint64 / 10 + 1 then (maxUint64, Some ErrRange)
      else
        let n10 := n * 10 in
        let n1 := (n10 + digitVal c) mod 2 ^ 64 in
        if (n1 <? n10) || (n1 >? maxUint64) then (maxUint64, Some ErrRange)
        else parseUintLoop s' n1
  end.

Definition ParseUint (s : string) : Z * option numErrKind :=
  match s with
  | EmptyString => (0, Some ErrSyntax)
  | _ => parseUintLoop s 0
  end.

Definition Atoi (s : string) : Z * option error :=
  match s with
  | EmptyString => (0, Some (NumError "Atoi" s ErrSyntax))
  | String c s' =>
      let neg := Ascii.eqb c "-" in
      let digits := if Ascii.eqb c "+" || neg then s' else s in
      match ParseUint digits with
      | (_, Some ErrSyntax) => (0, Some (NumError "Atoi" s ErrSyntax))
      | (un, _) =>
          let cutoff := 2 ^ 63 in
          if negb neg && (un >=? cutoff) then
            (cutoff - 1, Some (NumError "Atoi" s ErrRange))
          else if neg && (un >? cutoff) then
            (- cutoff, Some (NumError "Atoi" s ErrRange))
          else ((if neg then - un else un), None)
      end
  end.

(** ** The decode task: one iteration of the loop of [proxyEvents] *)

(** What a goroutine blocked on a channel is about to send:
    [connectionErrCh <- e] or [w.eventsCh <- r]. *)
Inductive send :=
| SendConnErr (e : error)
| SendEvent (r : watchResult).

(** How an iteration of the [for] loop ends: [continue] (or falling off the
    end of the body), or [return]. *)
Inductive loopCtl := Continue | Return.

(** [case added, modified, deleted, failed] *)
Definition isWatchType (t : eventType) : bool :=
  String.eqb t added || String.eqb t modified
  || String.eqb t deleted || String.eqb t failed.

Definition eofMessage := "EOF during watch stream event decoding".
Definition unexpectedEofMessage :=
  "Unexpected EOF during watch stream event decoding".
Definition decodeMessage := "Unable to decode an event from the watch stream".
Definition invalidTypeMessage := "Got invalid watch event type: ".

(** Lines 95-141 of streamer.go.  [ctxErr] is the value of [ctx.Err()] at
    line 99, [lastSeen] is [w.lastSeenResourceVersion], [d] is what
    [decoder.Decode(&got)] returned: an error, or [nil] with [got] filled in.
    The result is the new [w.lastSeenResourceVersion], the channel sends the
    iteration performs, in order, and how the iteration ends. *)
Definition decodeIteration (ctxErr : option error) (lastSeen : Z)
    (d : error + event) : Z * list send * loopCtl :=
  match d with
  | inl e =>
      match ctxErr with
      | Some _ => (lastSeen, [], Return)
      | None =>
          match e with
          | EOF => (lastSeen, [SendConnErr (Wrap e eofMessage)], Return)
          | ErrUnexpectedEOF =>
              (lastSeen, [SendConnErr (Wrap e unexpectedEofMessage)], Return)
          | _ =>
              let e' := Wrap e decodeMessage in
              (lastSeen,
               [SendConnErr e';
                SendEvent {| ep := None; err := Some (Wrap e' decodeMessage) |}],
               Return)
          end
      end
  | inr got =>
      if isWatchType (Type_ got) then
        match Atoi (ResourceVersion (Metadata (Object got))) with
        | (_, Some e) =>
            (lastSeen, [SendEvent {| ep := Some got; err := Some e |}], Continue)
        | (rv, None) =>
            (rv, [SendEvent {| ep := Some got; err := None |}], Continue)
        end
      else
        (lastSeen,
         [SendEvent {| ep := None;
                       err := Some (Errorf (String.append invalidTypeMessage
                                                          (Type_ got))) |}],
         Continue)
  end.

(** ** The watcher, the reconnect loop and the schedule *)

(** [streamWatcher] of streamer.go.  [epClient] and [eventsCh] are the
    environment: what the client answers is part of the schedule, what is
    sent on [eventsCh] is part of the trace.  [retryBackoff] is the attempt
    counter of the [*backoff.Backoff]: each call of [Duration()] returns the
    interval of the current attempt and increments the counter; nothing in
    streamer.go calls [Reset()]. *)
Record streamWatcher := {
  target : targetEntry;
  retryBackoff : nat;
  lastSeenResourceVersion : Z
}.

(** A decode task (the goroutine started at line 91): the sends of the
    current iteration that are still to be done, and how the iteration ends
    after them.  With nothing to send, [Continue] is the task blocked in
    [decoder.Decode] and [Return] is the task that has returned (and closed
    [connectionErrCh]). *)
Record decodeTask := { todo : list send; ctl : loopCtl }.

(** Where the goroutine of [watch] is. *)
Inductive watchPc :=
| AtLoop                          (* line 62, the loop condition *)
| AtStart                         (* line 63, the call of StartChangeStream *)
| AtSelect (g : nat)              (* line 147, in proxyEvents with stream g *)
| AtReturned (e : option error)   (* line 74, proxyEvents has returned e *)
| Exited.                         (* watch has returned *)

Record config := {
  ctxDone : bool;
  w : streamWatcher;
  pc : watchPc;
  tasks : list decodeTask
}.

(** What a run lets the outside see, in order. *)
Inductive obs :=
| OStart (t : targetEntry) (rv : Z)  (* epClient.StartChangeStream(ctx, t, rv) *)
| OSleep (attempt : nat)             (* time.Sleep(w.retryBackoff.Duration()) *)
| OPrint (e : error)                 (* fmt.Println(e) *)
| OEmit (r : watchResult)            (* a send on w.eventsCh has completed *)
| OClose (g : nat)                   (* stream.Close() on stream g *)
| OCancel.                           (* the context has been cancelled *)

(** One atomic step of the system. *)
Inductive move :=
| MCancel                            (* the owner cancels the context *)
| MLoop                              (* watch evaluates ctx.Err() == nil *)
| MStart (answer : option error)     (* StartChangeStream returns: an error, or a stream *)
| MSelectDone                        (* the select takes <-ctx.Done() *)
| MSelectErr                         (* the select takes <-connectionErrCh *)
| MReturned                          (* lines 74-80 *)
| MDecode (g : nat) (d : error + event)  (* Decode returns d in task g *)
| MDeliver (g : nat).                (* the consumer receives from task g *)

Definition startMessage := "k8sresolver stream: Failed to do start stream".
Definition retryMessage :=
  "k8sresolver stream: Error on read and proxy Events. Retrying".

Definition ctxErr (c : config) : option error :=
  if ctxDone c then Some Canceled else None.

Definition setPc (c : config) (p : watchPc) : config :=
  {| ctxDone := ctxDone c; w := w c; pc := p; tasks := tasks c |}.

Definition setTask (c : config) (g : nat) (t : decodeTask) : config :=
  {| ctxDone := ctxDone c; w := w c; pc := pc c;
     tasks := <[g := t]> (tasks c) |}.

Definition setLastSeen (sw : streamWatcher) (rv : Z) : streamWatcher :=
  {| target := target sw; retryBackoff := retryBackoff sw;
     lastSeenResourceVersion := rv |}.

(** [w.retryBackoff.Duration()] *)
Definition Duration (sw : streamWatcher) : nat * streamWatcher :=
  (retryBackoff sw,
   {| target := target sw; retryBackoff := S (retryBackoff sw);
      lastSeenResourceVersion := lastSeenResourceVersion sw |}).

(** The task blocked in [decoder.Decode]. *)
Definition reading : decodeTask := {| todo := []; ctl := Continue |}.

(** [exec c m] is the configuration after move [m] and what the move lets
    the outside see, or [None] when [m] is not enabled in [c]. *)
Definition exec (c : config) (m : move) : option (config * list obs) :=
  match m with
  | MCancel =>
      Some ({| ctxDone := true; w := w c; pc := pc c; tasks := tasks c |},
            [OCancel])
  | MLoop =>
      match pc c with
      | AtLoop => Some (setPc c (if ctxDone c then Exited else AtStart), [])
      | _ => None
      end
  | MStart answer =>
      match pc c with
      | AtStart =>
          let call :=
            OStart (target (w c)) (lastSeenResourceVersion (w c)) in
          match answer with
          | Some e =>
              let (d, sw) := Duration (w c) in
              Some ({| ctxDone := ctxDone c; w := sw; pc := AtLoop;
                       tasks := tasks c |},
                    [call; OPrint (Wrap e startMessage); OSleep d])
          | None =>
              Some ({| ctxDone := ctxDone c; w := w c;
                       pc := AtSelect (length (tasks c));
                       tasks := tasks c ++ [reading] |},
                    [call])
          end
      | _ => None
      end
  | MSelectDone =>
      match pc c with
      | AtSelect g =>
          if ctxDone c then Some (setPc c (AtReturned (ctxErr c)), [OClose g])
          else None
      | _ => None
      end
  | MSelectErr =>
      match pc c with
      | AtSelect g =>
          match tasks c !! g with
          | Some t =>
              match todo t, ctl t with
              | SendConnErr e :: rest, k =>
                  Some (setPc (setTask c g {| todo := rest; ctl := k |})
                              (AtReturned (Some e)),
                        [OClose g])
              | [], Return => Some (setPc c (AtReturned None), [OClose g])
              | _, _ => None
              end
          | None => None
          end
      | _ => None
      end
  | MReturned =>
      match pc c with
      | AtReturned e =>
          if ctxDone c then Some (setPc c Exited, [])
          else
            Some (setPc c AtLoop,
                  match e with
                  | Some e => [OPrint (Wrap e retryMessage)]
                  | None => []
                  end)
      | _ => None
      end
  | MDecode g d =>
      match tasks c !! g with
      | Some t =>
          match todo t, ctl t with
          | [], Continue =>
              let '(rv, sends, k) :=
                decodeIteration (ctxErr c) (lastSeenResourceVersion (w c)) d in
              Some ({| ctxDone := ctxDone c; w := setLastSeen (w c) rv;
                       pc := pc c;
                       tasks := <[g := {| todo := sends; ctl := k |}]> (tasks c) |},
                    [])
          | _, _ => None
          end
      | None => None
      end
  | MDeliver g =>
      match tasks c !! g with
      | Some t =>
          match todo t with
          | SendEvent r :: rest =>
              Some (setTask c g {| todo := rest; ctl := ctl t |}, [OEmit r])
          | _ => None
          end
      | None => None
      end
  end.

(** A schedule, run from [c]: the final configuration and the trace. *)
Fixpoint run (c : config) (ms : list move) : option (config * list obs) :=
  match ms with
  | [] => Some (c, [])
  | m :: ms' =>
      match exec c m with
      | Some (c', o) =>
          match run c' ms' with
          | Some (c'', tr) => Some (c'', o ++ tr)
          | None => None
          end
      | None => None
      end
  end.

(** [startWatchingEndpointsChanges]: the watcher is built and [watch] starts
    at its loop condition; no decode task exists yet.  [done] tells whether
    the context handed in is already cancelled. *)
Definition startWatchingEndpointsChanges (done : bool) (t : targetEntry)
    (backoff : nat) (lastSeen : Z) : config :=
  {| ctxDone := done;
     w := {| target := t; retryBackoff := backoff;
             lastSeenResourceVersion := lastSeen |};
     pc := AtLoop;
     tasks := [] |}.

(** ** Reading a trace *)

(** The resource versions passed to [StartChangeStream], in order. *)
Definition startVersions (tr : list obs) : list Z :=
  omap (fun o => match o with OStart _ rv => Some rv | _ => None end) tr.

(** The results sent on [eventsCh], in order. *)
Definition emitted (tr : list obs) : list watchResult :=
  omap (fun o => match o with OEmit r => Some r | _ => None end) tr.

(** The backoff waits, in order. *)
Definition sleeps (tr : list obs) : list nat :=
  omap (fun o => match o with OSleep n => Some n | _ => None end) tr.

(** The resource version of a result that carries an event and no error,
    that is, of an event whose resourceVersion was parsed. *)
Definition parsedVersion (r : watchResult) : option Z :=
  match ep r, err r with
  | Some ev, None =>
      match Atoi (ResourceVersion (Metadata (Object ev))) with
      | (rv, None) => Some rv
      | _ => None
      end
  | _, _ => None
  end.

(** The resource version of the most recent successfully parsed event among
    the results [rs], or [d] when there is none. *)
Definition lastParsed (d : Z) (rs : list watchResult) : Z :=
  fold_left (fun acc r => default acc (parsedVersion r)) rs d.

(** ** The scenario of TestStreamWatcher *)

Definition testTarget : targetEntry :=
  {| service := "service1"; port := noTargetPort; namespace := "namespace1" |}.

Definition wrongEvent : event :=
  {| Type_ := "not-supported";
     Object := {| Metadata := {| ResourceVersion := "" |}; Subsets := [] |} |}.

Definition expectedEvent : event :=
  {| Type_ := added;
     Object :=
       {| Metadata := {| ResourceVersion := "123" |};
          Subsets :=
            [ {| Addresses := [ {| IP := "1.2.3.4" |} ];
                 Ports := [ {| Port := 8080; Name := "noName" |} ] |} ] |} |}.

Definition undecodable : error := Failure "invalid character '{'".

Definition testSchedule : list move :=
  [ MLoop; MStart None;
    MDecode 0 (inl undecodable); MSelectErr; MDeliver 0; MReturned;
    MLoop; MStart None;
    MDecode 1 (inr wrongEvent); MDeliver 1;
    MDecode 1 (inr expectedEvent); MDeliver 1 ].

Definition testStart : config :=
  startWatchingEndpointsChanges false testTarget 0 0.

(** The test's watcher once its first [StartChangeStream] has returned a
    stream: [watch] is in [proxyEvents], decode task 0 is reading. *)
Definition testConnected : config :=
  {| ctxDone := false; w := w testStart; pc := AtSelect 0;
     tasks := [reading] |}.

(** The test's watcher with 123 as the last seen resource version, in
    [proxyEvents], its decode task blocked on handing over the error of a
    stream cut in the middle of a document. *)
Definition testBroken : config :=
  {| ctxDone := false;
     w := {| target := testTarget; retryBackoff := 0;
             lastSeenResourceVersion := 123 |};
     pc := AtSelect 0;
     tasks := [ {| todo := [SendConnErr (Wrap ErrUnexpectedEOF
                                              unexpectedEofMessage)];
                   ctl := Return |} ] |}.

(** The same with the context cancelled. *)
Definition testCancelled : config :=
  {| ctxDone := true; w := w testStart; pc := AtSelect 0;
     tasks := [reading] |}.

(** A decode task that has returned. *)
Definition finished : decodeTask := {| todo := []; ctl := Return |}.

(** An event of type [t] with resource version [rv] and no subsets. *)
Definition eventOf (t : eventType) (rv : string) : event :=
  {| Type_ := t;
     Object := {| Metadata := {| ResourceVersion := rv |}; Subsets := [] |} |}.

(** The resource version a move stores in [w.lastSeenResourceVersion], if
    any: that of a decoded event of a known type whose resourceVersion
    parses. *)
Definition versionOf (m : move) : option Z :=
  match m with
  | MDecode _ (inr got) =>
      if isWatchType (Type_ got) then
        match Atoi (ResourceVersion (Metadata (Object got))) with
        | (rv, None) => Some rv
        | _ => None
        end
      else None
  | _ => None
  end.

(** The value of a variable that starts as [v] and is then assigned the
    values [xs] in order. *)
Definition assigned (v : Z) (xs : list Z) : Z :=
  fold_left (fun _ x => x) xs v.

(** The calls of [StartChangeStream] that [watch] is committed to without
    looking at the context again: one when it is past the loop condition. *)
Definition pendingStart (p : watchPc) : nat :=
  match p with AtStart => 1 | _ => 0 end.

(** The results among the sends a decode task still has to do. *)
Definition pendingResults (l : list send) : list watchResult :=
  omap (fun s => match s with SendEvent r => Some r | _ => None end) l.

(** [startsOk tg v tr]: every call of [StartChangeStream] in [tr] is for the
    target [tg] and passes the resource version of the most recent
    successfully parsed event sent on [eventsCh] before it, or [v] when there
    is none. *)
Fixpoint startsOk (tg : targetEntry) (v : Z) (tr : list obs) : Prop :=
  match tr with
  | [] => True
  | OStart tg' rv :: tr' => tg' = tg /\ rv = v /\ startsOk tg v tr'
  | OEmit r :: tr' => startsOk tg (default v (parsedVersion r)) tr'
  | _ :: tr' => startsOk tg v tr'
  end.

(** Which fields of a result on [eventsCh] are set, and why. *)
Definition resultShape (r : watchResult) : Prop :=
  match ep r, err r with
  | Some ev, None =>
      isWatchType (Type_ ev) = true
      /\ snd (Atoi (ResourceVersion (Metadata (Object ev)))) = None
  | Some ev, Some e =>
      isWatchType (Type_ ev) = true
      /\ snd (Atoi (ResourceVersion (Metadata (Object ev)))) = Some e
  | None, Some _ => True
  | None, None => False
  end.

(** ** Invariants of configurations and traces *)

(** Every stream handed out so far is the one [proxyEvents] waits on, or
    has been closed. *)
Definition closedOrCurrent (c : config) (tr : list obs) : Prop :=
  forall g : nat,
    (g < length (tasks c))%nat -> pc c = AtSelect g \/ In (OClose g) tr.

(** The results already sent and those the decode tasks still have to send
    all have one of the shapes of [resultShape]. *)
Definition shapesOk (c : config) (tr : list obs) : Prop :=
  (forall r, In (OEmit r) tr -> resultShape r)
  /\ (forall g t r,
         tasks c !! g = Some t -> In (SendEvent r) (todo t) -> resultShape r).

(** What holds of a run that started in [c0] with the context cancelled. *)
Definition stopping (c0 c : config) (tr : list obs) : Prop :=
  ctxDone c = true
  /\ (length (startVersions tr) + pendingStart (pc c) <= pendingStart (pc c0))%nat
  /\ (forall g, pc c0 = AtSelect g -> pc c = AtSelect g \/ In (OClose g) tr)
  /\ (pc c0 = Exited -> pc c = Exited).

(** Sends that carry no successfully parsed event. *)
Definition quietSends (l : list send) : Prop :=
  forall r, In (SendEvent r) l -> parsedVersion r = None.

(** A task that is past its last [Decode] and has no successfully parsed
    event left to send. *)
Definition quietTask (t : decodeTask) : Prop :=
  ctl t = Return /\ quietSends (todo t).

(** The shapes of the sends of one iteration: a task that will return has no
    successfully parsed event left to send, and a task that hands an error to
    [proxyEvents] returns. *)
Definition taskWf (t : decodeTask) : Prop :=
  (ctl t = Return -> quietSends (todo t))
  /\ (forall e, In (SendConnErr e) (todo t) -> ctl t = Return).

(** [watch] is outside [proxyEvents]: no task reads any more, and
    [lastSeenResourceVersion] is [L], the resource version of the last
    successfully parsed event sent on [eventsCh]. *)
Definition settled (c : config) (L : Z) : Prop :=
  (forall g t, tasks c !! g = Some t -> quietTask t)
  /\ lastSeenResourceVersion (w c) = L.

(** [watch] is in [proxyEvents] on stream [g]: only task [g] may still read,
    and [lastSeenResourceVersion] is what [L] becomes once task [g] has done
    its pending sends. *)
Definition attached (c : config) (g : nat) (L : Z) : Prop :=
  (forall g' t, g' <> g -> tasks c !! g' = Some t -> quietTask t)
  /\ exists t,
      tasks c !! g = Some t
      /\ lastSeenResourceVersion (w c) = lastParsed L (pendingResults (todo t)).

(** The state of the tasks and of [lastSeenResourceVersion] at each point of
    [watch]; nothing is required once [watch] has exited or is about to
    because the context is cancelled. *)
Definition pcInv (c : config) (L : Z) : Prop :=
  match pc c with
  | Exited => True
  | AtReturned _ => ctxDone c = true \/ settled c L
  | AtSelect g => attached c g L
  | AtLoop | AtStart => settled c L
  end.

(** The invariant behind the resource version passed on reconnecting. *)
Definition resumes (tg : targetEntry) (v : Z) (c : config) (tr : list obs)
  : Prop :=
  target (w c) = tg
  /\ startsOk tg v tr
  /\ (forall g t, tasks c !! g = Some t -> taskWf t)
  /\ pcInv c (lastParsed v (emitted tr)).

(** ** Counting over schedules, traces and tasks *)

(** How many times [stream.Close()] was called on stream [g]. *)
Definition closeCount (g : nat) (tr : list obs) : nat :=
  length (omap (fun o => match o with
                         | OClose g' => if Nat.eqb g g' then Some tt else None
                         | _ => None
                         end) tr).

(** Whether [watch] is in the select of [proxyEvents] on stream [g]. *)
Definition selecting (p : watchPc) (g : nat) : bool :=
  match p with AtSelect g' => Nat.eqb g g' | _ => false end.

(** The number of streams the client has handed out in a schedule: one per
    call of [StartChangeStream] that returned no error.  Each of them is
    passed to one invocation of [proxyEvents] (line 73); the number [g] in
    [AtSelect g] and [OClose g] is that of the invocation, counted from 0.
    Nothing says that the client hands out a fresh object each time: the
    mock of the test returns the same [connMock] on every call. *)
Definition streamsOpened (ms : list move) : nat :=
  length (omap (fun m => match m with MStart None => Some tt | _ => None end)
               ms).

(** With [handleOf g] the stream object the client handed to invocation [g]:
    how many times [Close()] was called on the object [h]. *)
Definition closesOn (handleOf : nat -> nat) (h : nat) (tr : list obs) : nat :=
  length (omap (fun o => match o with
                         | OClose g =>
                             if Nat.eqb (handleOf g) h then Some tt else None
                         | _ => None
                         end) tr).

(** How many of the first [n] invocations of [proxyEvents] were given the
    object [h] and have returned, [watch] being at [p]. *)
Fixpoint returnedWith (handleOf : nat -> nat) (h : nat) (p : watchPc)
    (n : nat) : nat :=
  match n with
  | O => O
  | S n' =>
      (returnedWith handleOf h p n'
       + if Nat.eqb (handleOf n') h && negb (selecting p n') then 1 else 0)%nat
  end.

(** Each stream object has been closed once per invocation of [proxyEvents]
    that was given it and has returned. *)
Definition closedPerObject (handleOf : nat -> nat) (h : nat) (c : config)
    (tr : list obs) : Prop :=
  (forall g, pc c = AtSelect g -> (g < length (tasks c))%nat)
  /\ closesOn handleOf h tr =
     returnedWith handleOf h (pc c) (length (tasks c)).

(** The number of returns of [Decode] in a schedule, and the number of those
    that return a document. *)
Definition decodes (ms : list move) : nat :=
  length (omap (fun m => match m with MDecode _ _ => Some tt | _ => None end) ms).

Definition decodedEvents (ms : list move) : nat :=
  length (omap (fun m => match m with
                         | MDecode _ (inr _) => Some tt
                         | _ => None
                         end) ms).

(** The results the decode tasks still have to send on [eventsCh]. *)
Definition pendingCount (ts : list decodeTask) : nat :=
  length (concat (map (fun t => pendingResults (todo t)) ts)).

(** The result lines 123-141 send for a decoded event. *)
Definition resultOf (got : event) : watchResult :=
  if isWatchType (Type_ got) then
    match Atoi (ResourceVersion (Metadata (Object got))) with
    | (_, Some e) => {| ep := Some got; err := Some e |}
    | (_, None) => {| ep := Some got; err := None |}
    end
  else
    {| ep := None;
       err := Some (Errorf (String.append invalidTypeMessage (Type_ got))) |}.

(** Task [g] decodes the events [evs] one after the other, the consumer
    receiving each result before the next [Decode] returns. *)
Definition eventsSchedule (g : nat) (evs : list event) : list move :=
  flat_map (fun ev => [MDecode g (inr ev); MDeliver g]) evs.

(** The range of a 64-bit Go [int]. *)
Definition inIntRange (z : Z) : Prop := - 2 ^ 63 <= z < 2 ^ 63.

(** The tasks that are still in their read loop are among those [P] allows. *)
Definition readersWithin (c : config) (P : nat -> Prop) : Prop :=
  forall g t, tasks c !! g = Some t -> ctl t = Continue -> P g.

(** At most one task is still in its read loop, and where [watch] is tells
    which one it can be. *)
Definition oneReader (c : config) : Prop :=
  (forall g t, tasks c !! g = Some t -> taskWf t)
  /\ exists g0,
      readersWithin c (eq g0)
      /\ match pc c with
         | AtLoop | AtStart => readersWithin c (fun _ => False)
         | AtSelect g => g0 = g
         | AtReturned _ => ctxDone c = false -> readersWithin c (fun _ => False)
         | Exited => True
         end.

(** The backoff waits so far are the attempts [b], [b+1], ... in order, and
    the counter of the watcher is the next one. *)
Definition backoffCounts (b : nat) (c : config) (tr : list obs) : Prop :=
  sleeps tr = seq b (length (sleeps tr))
  /\ retryBackoff (w c) = (b + length (sleeps tr))%nat.

(** Every call of [StartChangeStream] so far has opened a stream or has been
    followed by a backoff wait. *)
Definition callsAccounted (c : config) (tr : list obs) : Prop :=
  length (startVersions tr) = (length (sleeps tr) + length (tasks c))%nat.

(** A stream has been closed once when [proxyEvents] has returned from it,
    and not at all before. *)
Definition closedOnce (c : config) (tr : list obs) : Prop :=
  (forall g, pc c = AtSelect g -> (g < length (tasks c))%nat)
  /\ forall g,
      closeCount g tr =
      if (g <? length (tasks c))%nat && negb (selecting (pc c) g)
      then 1%nat else 0%nat.

(** A watcher started on a cancelled context has done nothing. *)
Definition idle (sw : streamWatcher) (c : config) (tr : list obs) : Prop :=
  ctxDone c = true /\ (pc c = AtLoop \/ pc c = Exited)
  /\ tasks c = [] /\ w c = sw
  /\ startVersions tr = [] /\ emitted tr = [] /\ sleeps tr = []
  /\ forall g, closeCount g tr = 0%nat.

(** [watch] has exited, and task [g] is as it was. *)
Definition exitedWith (g : nat) (t : decodeTask) (c : config) (tr : list obs)
  : Prop :=
  pc c = Exited /\ tasks c !! g = Some t.

(** ** The constructor from flags

    [NewFromFlags] and [defaultKubeURL].  The values of the flags are a
    record; what lies outside the package is a [world]: the file system
    behind [ioutil.ReadFile], [url.Parse], and [k8sauth.New] of go-tokenauth,
    each returning what the Go function returns.  The calls made to the world
    are logged in order. *)

Fixpoint hasColon (s : string) : bool :=
  match s with
  | EmptyString => false
  | String c s' => Ascii.eqb c ":" || hasColon s'
  end.

(** [net.JoinHostPort] of the Go standard library: a host with a colon is
    taken for a literal IPv6 address and put in brackets. *)
Definition JoinHostPort (host port : string) : string :=
  if hasColon host then ("[" ++ host ++ "]:" ++ port)%string
  else (host ++ ":" ++ port)%string.

(** Line 25; [host] and [port] are [os.Getenv("KUBERNETES_SERVICE_HOST")]
    and [os.Getenv("KUBERNETES_SERVICE_PORT")], empty when unset. *)
Definition defaultKubeURL (host port : string) : string :=
  ("https://" ++ JoinHostPort host port)%string.

Record flags := {
  fKubeApiURL : string;
  fInsecureSkipVerify : bool;
  fKubeApiRootCAPath : string;
  fTokenAuthPath : string;
  fKubeConfigAuthUser : string;
  fKubeConfigAuthPath : string
}.

(** A [tokenauth.Source]: one made by [directauth.New(name, token)], or one
    handed back by [k8sauth.New]. *)
Inductive source :=
| Direct (name token : string)
| KubeConfig (id : string).

(** [x509.CertPool], as the PEM data appended to it. *)
Definition certPool := list string.
Definition NewCertPool : certPool := [].
Definition AppendCertsFromPEM (pool : certPool) (pem : string) : certPool :=
  pool ++ [pem].

(** The fields of [tls.Config] the constructor sets; [MinVersion] is 0 when
    left unset. *)
Record tlsConfig := {
  InsecureSkipVerify : bool;
  MinVersion : Z;
  RootCAs : option certPool
}.

Definition VersionTLS10 : Z := 769.

(** [New] is declared outside the sources at hand: the value
    [New(k8sURL, source, tlsConfig)] is kept as its three arguments. *)
Record newCall := {
  argURL : string;
  argSource : source;
  argTLS : tlsConfig
}.

Record world := {
  ReadFile : string -> string * option error;
  urlParse : string -> option error;
  k8sauthNew : string -> string -> string -> option source * option error
}.

Inductive call :=
| CallParse (rawurl : string)
| CallReadFile (path : string)
| CallK8sAuth (name path user : string).

(** A computation that logs its calls to the world and may return early with
    an error. *)
Definition logged (A : Type) : Type := (error + A) * list call.

Definition ret {A : Type} (a : A) : logged A := (inr a, []).

Definition fail {A : Type} (e : error) : logged A := (inl e, []).

Definition perform {A : Type} (c : call) (a : A) : logged A := (inr a, [c]).

Definition bind {A B : Type} (m : logged A) (k : A -> logged B) : logged B :=
  match m with
  | (inl e, l) => (inl e, l)
  | (inr a, l) => let (r, l') := k a in (r, l ++ l')
  end.

Notation "x <- m ;; k" := (bind m (fun x => k))
  (at level 20, m at level 99, k at level 200, only parsing).

Definition urlMissingMessage : string :=
  "k8sresolver: k8sresolver_kubeapi_url flag needs to be specified or KUBERNETES_SERVICE_HOST and KUBERNETES_SERVICE_PORT must be defined".

Definition urlInvalidMessage (k8sURL : string) : string :=
  ("k8sresolver: k8sresolver_kubeapi_url flag needs to be valid URL. Value "
   ++ k8sURL ++ " ")%string.

Definition caMessage (path : string) : string :=
  ("k8sresolver: failed to parse RootCA from file " ++ path)%string.

Definition k8sauthMessage : string :=
  "k8sresolver: failed to create k8sauth Source".

Definition tokenMessage (path : string) : string :=
  ("k8sresolver: failed to parse token from " ++ path
   ++ ". No auth method found")%string.

(** Lines 48-96. *)
Definition NewFromFlags (wd : world) (f : flags) : logged newCall :=
  let k8sURL := fKubeApiURL f in
  if String.eqb k8sURL "" || String.eqb k8sURL "https://:" then
    fail (Errorf urlMissingMessage)
  else
    perr <- perform (CallParse k8sURL) (urlParse wd k8sURL) ;;
    match perr with
    | Some e => fail (Wrap e (urlInvalidMessage k8sURL))
    | None =>
        tls <-
          (if negb (fInsecureSkipVerify f) then
             (r <- perform (CallReadFile (fKubeApiRootCAPath f))
                           (ReadFile wd (fKubeApiRootCAPath f)) ;;
              match r with
              | (_, Some e) => fail (Wrap e (caMessage (fKubeApiRootCAPath f)))
              | (ca, None) =>
                  ret {| InsecureSkipVerify := false;
                         MinVersion := VersionTLS10;
                         RootCAs := Some (AppendCertsFromPEM NewCertPool ca) |}
              end)
           else
             ret {| InsecureSkipVerify := true; MinVersion := 0;
                    RootCAs := None |}) ;;
        src <-
          (let user := fKubeConfigAuthUser f in
           if negb (String.eqb user "") then
             (r <- perform (CallK8sAuth "kube_api" (fKubeConfigAuthPath f) user)
                           (k8sauthNew wd "kube_api" (fKubeConfigAuthPath f)
                                       user) ;;
              match r with
              | (_, Some e) => fail (Wrap e k8sauthMessage)
              | (s, None) => ret s
              end)
           else ret None) ;;
        src <-
          match src with
          | Some s => ret s
          | None =>
              (r <- perform (CallReadFile (fTokenAuthPath f))
                            (ReadFile wd (fTokenAuthPath f)) ;;
               match r with
               | (_, Some e) => fail (Wrap e (tokenMessage (fTokenAuthPath f)))
               | (token, None) => ret (Direct "kube_api" token)
               end)
          end ;;
        ret {| argURL := k8sURL; argSource := src; argTLS := tls |}
    end.

(** The calls a successful run of [NewFromFlags] makes before it looks for
    credentials. *)
Definition tlsCalls (f : flags) : list call :=
  CallParse (fKubeApiURL f)
  :: (if fInsecureSkipVerify f then []
      else [CallReadFile (fKubeApiRootCAPath f)]).

(** A world in which every file holds its own name, every URL parses and the
    kubeconfig knows every user. *)
Definition testWorld : world :=
  {| ReadFile := fun path => (path, None);
     urlParse := fun _ => None;
     k8sauthNew := fun _ _ user => (Some (KubeConfig user), None) |}.

(** The same with a kubeconfig that cannot be read. *)
Definition noKubeConfigWorld : world :=
  {| ReadFile := fun path => (path, None);
     urlParse := fun _ => None;
     k8sauthNew := fun _ _ _ => (None, Some (Failure "no such file")) |}.

Definition testFlags : flags :=
  {| fKubeApiURL := "https://10.0.0.1:443";
     fInsecureSkipVerify := false;
     fKubeApiRootCAPath := "/var/run/ca.crt";
     fTokenAuthPath := "/var/run/token";
     fKubeConfigAuthUser := "";
     fKubeConfigAuthPath := "" |}.

Definition userFlags : flags :=
  {| fKubeApiURL := "https://10.0.0.1:443";
     fInsecureSkipVerify := true;
     fKubeApiRootCAPath := "/var/run/ca.crt";
     fTokenAuthPath := "/var/run/token";
     fKubeConfigAuthUser := "admin";
     fKubeConfigAuthPath := "" |}.

(** The flags of a process started outside a pod with no flag given: the
    URL defaults to [defaultKubeURL] of an empty host and port. *)
Definition unsetFlags : flags :=
  {| fKubeApiURL := defaultKubeURL "" "";
     fInsecureSkipVerify := false;
     fKubeApiRootCAPath := "/var/run/ca.crt";
     fTokenAuthPath := "/var/run/token";
     fKubeConfigAuthUser := "";
     fKubeConfigAuthPath := "" |}.

(** What [NewFromFlags] builds from [testFlags] in [testWorld]. *)
Definition testNewCall : newCall :=
  {| argURL := "https://10.0.0.1:443";
     argSource := Direct "kube_api" "/var/run/token";
     argTLS := {| InsecureSkipVerify := false; MinVersion := 769;
                  RootCAs := Some ["/var/run/ca.crt"%string] |} |}.

(** A longer run of the test's watcher: two refused connections, a stream
    with one event that then breaks, a second stream with one event of an
    unknown type, and the cancellation. *)
Definition refused : error := Failure "connection refused".

Definition flakySchedule : list move :=
  [ MLoop; MStart (Some refused); MLoop; MStart (Some refused);
    MLoop; MStart None;
    MDecode 0 (inr expectedEvent); MDeliver 0;
    MDecode 0 (inl undecodable); MSelectErr; MReturned;
    MLoop; MStart None;
    MDecode 1 (inr wrongEvent);
    MCancel; MSelectDone; MReturned;
    MDeliver 0 ].

Definition flakyOutcome : config * list obs :=
  Eval cbv in
    match run testStart flakySchedule with
    | Some r => r
    | None => (testStart, [])
    end.

(** The test's watcher after a cancellation that came while its decode task
    was waiting to hand a decode error to [proxyEvents]. *)
Definition testLeaked : config :=
  {| ctxDone := true; w := w testStart; pc := Exited;
     tasks :=
       [ {| todo :=
              [SendConnErr (Wrap undecodable decodeMessage);
               SendEvent {| ep := None;
                            err := Some (Wrap (Wrap undecodable decodeMessage)
                                              decodeMessage) |}];
            ctl := Return |} ] |}.

(** * Properties *)

(** Looking up the task that has just been written. *)
Ltac task_lookup Hg :=
  rewrite ?list_lookup_insert_eq by (eapply lookup_lt_Some, Hg);
  rewrite ?list_insert_insert_eq.

(** All the ways a move can be enabled. *)
Ltac exec_cases H :=
  unfold exec in H;
  repeat case_match; simplify_eq/=.

(** The four parts of [resumes]. *)
Ltac split4 := split; [try (assumption || reflexivity)|split; [|split]].

(** ** The model on the test and on sample inputs *)

Example Atoi_123 : Atoi "123" = (123, None).
Proof. reflexivity. Qed.
Example Atoi_neg : Atoi "-42" = (-42, None).
Proof. reflexivity. Qed.
Example Atoi_max : Atoi "9223372036854775807" = (9223372036854775807, None).
Proof. vm_compute. reflexivity. Qed.
Example Atoi_over :
  snd (Atoi "9223372036854775808") =
  Some (NumError "Atoi" "9223372036854775808" ErrRange).
Proof. vm_compute. reflexivity. Qed.
Example Atoi_min : Atoi "-9223372036854775808" = (-9223372036854775808, None).
Proof. vm_compute. reflexivity. Qed.
Example Atoi_empty : snd (Atoi "") = Some (NumError "Atoi" "" ErrSyntax).
Proof. reflexivity. Qed.
Example Atoi_sign : snd (Atoi "+") = Some (NumError "Atoi" "+" ErrSyntax).
Proof. reflexivity. Qed.
Example Atoi_huge :
  snd (Atoi "99999999999999999999999") =
  Some (NumError "Atoi" "99999999999999999999999" ErrRange).
Proof. vm_compute. reflexivity. Qed.
Example Atoi_abc : snd (Atoi "12a") = Some (NumError "Atoi" "12a" ErrSyntax).
Proof. reflexivity. Qed.

(** The test's three reads from [eventsCh] and its count of two calls of
    [StartChangeStream]. *)
Example TestStreamWatcher_trace :
  option_map snd (run testStart testSchedule) =
  Some [ OStart testTarget 0;
         OClose 0;
         OEmit {| ep := None;
                  err := Some (Wrap (Wrap undecodable decodeMessage)
                                    decodeMessage) |};
         OPrint (Wrap (Wrap undecodable decodeMessage) retryMessage);
         OStart testTarget 0;
         OEmit {| ep := None;
                  err := Some (Errorf "Got invalid watch event type: not-supported") |};
         OEmit {| ep := Some expectedEvent; err := None |} ].
Proof. vm_compute. reflexivity. Qed.

Example testConnected_reached :
  run testStart [MLoop; MStart None] = Some (testConnected, [OStart testTarget 0]).
Proof. reflexivity. Qed.

Example TestStreamWatcher_reconnects :
  option_map (fun r => length (startVersions (snd r))) (run testStart testSchedule)
  = Some 2%nat.
Proof. vm_compute. reflexivity. Qed.

Example TestStreamWatcher_lastSeen :
  option_map (fun r => lastSeenResourceVersion (w (fst r)))
             (run testStart testSchedule) = Some 123.
Proof. vm_compute. reflexivity. Qed.

(** ** Basic facts about moves and schedules *)

Lemma isWatchType_In (t : eventType) :
  isWatchType t = true <-> In t [added; modified; deleted; failed].
Proof.
  unfold isWatchType. rewrite !orb_true_iff, !String.eqb_eq. simpl.
  intuition congruence.
Qed.

Lemma isWatchType_not_In (t : eventType) :
  ~ In t [added; modified; deleted; failed] -> isWatchType t = false.
Proof.
  intros H. destruct (isWatchType t) eqn:E; [|reflexivity].
  apply isWatchType_In in E. contradiction.
Qed.

Lemma config_eta (c : config) :
  {| ctxDone := ctxDone c; w := w c; pc := pc c; tasks := tasks c |} = c.
Proof. destruct c; reflexivity. Qed.

Lemma setLastSeen_same (sw : streamWatcher) :
  setLastSeen sw (lastSeenResourceVersion sw) = sw.
Proof. destruct sw; reflexivity. Qed.

(** A task blocked in [Decode] runs one iteration of the loop. *)
Lemma exec_decode (c : config) (g : nat) (d : error + event) :
  tasks c !! g = Some reading ->
  exec c (MDecode g d) =
  let '(rv, sends, k) :=
    decodeIteration (ctxErr c) (lastSeenResourceVersion (w c)) d in
  Some ({| ctxDone := ctxDone c; w := setLastSeen (w c) rv; pc := pc c;
           tasks := <[g := {| todo := sends; ctl := k |}]> (tasks c) |}, []).
Proof. intros Hg. unfold exec. rewrite Hg. reflexivity. Qed.

(** A task blocked on [w.eventsCh <- r] completes the send. *)
Lemma exec_deliver (c : config) (g : nat) (r : watchResult)
    (rest : list send) (k : loopCtl) :
  tasks c !! g = Some {| todo := SendEvent r :: rest; ctl := k |} ->
  exec c (MDeliver g) =
  Some (setTask c g {| todo := rest; ctl := k |}, [OEmit r]).
Proof. intros Hg. unfold exec. rewrite Hg. reflexivity. Qed.

(** Decoding an event and handing the one result to the consumer. *)
Lemma run_decode_event (c : config) (g : nat) (got : event) :
  tasks c !! g = Some reading ->
  run c [MDecode g (inr got); MDeliver g] =
  match decodeIteration (ctxErr c) (lastSeenResourceVersion (w c)) (inr got) with
  | (rv, SendEvent r :: _, _) =>
      Some ({| ctxDone := ctxDone c; w := setLastSeen (w c) rv; pc := pc c;
               tasks := tasks c |}, [OEmit r])
  | _ => None
  end.
Proof.
  intros Hg. pose proof (lookup_lt_Some _ _ _ Hg) as Hlt.
  unfold run. rewrite (exec_decode c g (inr got) Hg).
  unfold decodeIteration.
  destruct (isWatchType (Type_ got));
    [destruct (Atoi _) as [rv [e|]]|];
    (erewrite exec_deliver by (simpl; apply list_lookup_insert_eq, Hlt));
    unfold setTask; simpl;
    rewrite list_insert_insert_eq;
    change {| todo := []; ctl := Continue |} with reading;
    rewrite (list_insert_id _ _ _ Hg); reflexivity.
Qed.

(** ** Per-event behaviour of the decode task *)

(** C4: for a decoded event of type ADDED, MODIFIED, DELETED or ERROR read by
    a decode task, when [strconv.Atoi] fails on its resourceVersion the task
    emits a result carrying that parse error (and the event), leaves
    [lastSeenResourceVersion] unchanged and is back reading the same stream,
    the reconnect loop not having moved; when it succeeds the task stores the
    parsed value in [lastSeenResourceVersion] and emits a result carrying the
    event and no error. *)
Theorem C4_resource_version_parse (c : config) (g : nat) (got : event) :
  tasks c !! g = Some reading ->
  In (Type_ got) [added; modified; deleted; failed] ->
  (forall v e,
      Atoi (ResourceVersion (Metadata (Object got))) = (v, Some e) ->
      run c [MDecode g (inr got); MDeliver g] =
      Some (c, [OEmit {| ep := Some got; err := Some e |}]))
  /\ (forall rv,
      Atoi (ResourceVersion (Metadata (Object got))) = (rv, None) ->
      run c [MDecode g (inr got); MDeliver g] =
      Some ({| ctxDone := ctxDone c; w := setLastSeen (w c) rv; pc := pc c;
               tasks := tasks c |},
            [OEmit {| ep := Some got; err := None |}])).
Proof.
  intros Hg Hty. apply isWatchType_In in Hty.
  split; intros; rewrite (run_decode_event c g got Hg);
    unfold decodeIteration; rewrite Hty, H; [|reflexivity].
  rewrite setLastSeen_same, config_eta. reflexivity.
Qed.

Lemma C4_resource_version_parse_witness :
  run testConnected [MDecode 0 (inr expectedEvent); MDeliver 0] =
  Some ({| ctxDone := false;
           w := {| target := testTarget; retryBackoff := 0;
                   lastSeenResourceVersion := 123 |};
           pc := AtSelect 0; tasks := [reading] |},
        [OEmit {| ep := Some expectedEvent; err := None |}]).
Proof.
  exact (proj2 (C4_resource_version_parse testConnected 0 expectedEvent
                  eq_refl (or_introl eq_refl)) 123 eq_refl).
Defined.

(** C6: for a decoded event whose type is none of ADDED, MODIFIED, DELETED,
    ERROR, the decode task emits a result carrying an invalid-event-type
    error and no event; afterwards the configuration is what it was before:
    [lastSeenResourceVersion] is unchanged, the task is reading the same
    stream again and the reconnect loop has not moved. *)
Theorem C6_invalid_event_type (c : config) (g : nat) (got : event) :
  tasks c !! g = Some reading ->
  ~ In (Type_ got) [added; modified; deleted; failed] ->
  run c [MDecode g (inr got); MDeliver g] =
  Some (c, [OEmit {| ep := None;
                     err := Some (Errorf (String.append invalidTypeMessage
                                                        (Type_ got))) |}]).
Proof.
  intros Hg Hty. apply isWatchType_not_In in Hty.
  rewrite (run_decode_event c g got Hg). unfold decodeIteration.
  rewrite Hty, setLastSeen_same, config_eta. reflexivity.
Qed.

Lemma C6_invalid_event_type_witness :
  run testConnected [MDecode 0 (inr wrongEvent); MDeliver 0] =
  Some (testConnected,
        [OEmit {| ep := None;
                  err := Some (Errorf "Got invalid watch event type: not-supported") |}]).
Proof.
  apply (C6_invalid_event_type testConnected 0 wrongEvent eq_refl).
  simpl. unfold added, modified, deleted, failed.
  intros [H|[H|[H|[H|[]]]]]; discriminate H.
Defined.

(** ** Stream-level decode failures *)

Lemma run_stream_failure (c : config) (g : nat) (e : error) :
  pc c = AtSelect g -> ctxDone c = false -> tasks c !! g = Some reading ->
  forall (e' : error) (rest : list send),
  decodeIteration None (lastSeenResourceVersion (w c)) (inl e) =
    (lastSeenResourceVersion (w c), SendConnErr e' :: rest, Return) ->
  run c [MDecode g (inl e); MSelectErr] =
  Some (setPc (setTask c g {| todo := rest; ctl := Return |})
              (AtReturned (Some e')), [OClose g]).
Proof.
  intros Hpc Hctx Hg e' rest Hit. unfold run.
  assert (ctxErr c = None) as Hlive by (unfold ctxErr; rewrite Hctx; reflexivity).
  rewrite (exec_decode c g (inl e) Hg), Hlive, Hit.
  unfold exec. cbn [pc tasks todo ctl]. rewrite Hpc. task_lookup Hg.
  cbn [todo ctl]. unfold setPc, setTask. cbn [ctxDone w pc tasks].
  task_lookup Hg. rewrite setLastSeen_same. reflexivity.
Qed.

Lemma run_app (c : config) (ms1 ms2 : list move) :
  run c (ms1 ++ ms2) =
  match run c ms1 with
  | Some (c1, tr1) =>
      match run c1 ms2 with
      | Some (c2, tr2) => Some (c2, tr1 ++ tr2)
      | None => None
      end
  | None => None
  end.
Proof.
  revert c. induction ms1 as [|m ms1 IH]; intros c; simpl.
  - destruct (run c ms2) as [[c2 tr2]|]; reflexivity.
  - destruct (exec c m) as [[c' o]|]; [|reflexivity].
    rewrite IH. destruct (run c' ms1) as [[c1 tr1]|]; [|reflexivity].
    destruct (run c1 ms2) as [[c2 tr2]|]; [|reflexivity].
    rewrite app_assoc. reflexivity.
Qed.

Lemma run_one (c : config) (m : move) :
  run c [m] =
  match exec c m with Some (c', o) => Some (c', o ++ []) | None => None end.
Proof. simpl. destruct (exec c m) as [[c' o]|]; reflexivity. Qed.

(** Lines 74-80 with the context live: the error is printed and the loop
    goes round. *)
Lemma exec_returned_live (c : config) (e : option error) :
  pc c = AtReturned e -> ctxDone c = false ->
  exec c MReturned =
  Some (setPc c AtLoop,
        match e with Some e => [OPrint (Wrap e retryMessage)] | None => [] end).
Proof. intros Hpc Hctx. unfold exec. rewrite Hpc, Hctx. reflexivity. Qed.

(** C3, as the code has it, with the context live, for a decode task read by
    [proxyEvents]: on [io.EOF] and on [io.ErrUnexpectedEOF] the task hands
    the wrapped error to the reconnect loop only, which closes the stream,
    prints the error and goes round; nothing is sent on the output queue.
    On any other decode error the task hands the wrapped error to the
    reconnect loop and then sends exactly one result on the output queue,
    carrying the error wrapped with the descriptive message and no event.
    In all three cases the decode task has returned. *)
Theorem C3_stream_decode_failure (c : config) (g : nat) :
  pc c = AtSelect g -> ctxDone c = false -> tasks c !! g = Some reading ->
  run c [MDecode g (inl EOF); MSelectErr; MReturned] =
    Some (setPc (setTask c g finished) AtLoop,
          [OClose g; OPrint (Wrap (Wrap EOF eofMessage) retryMessage)])
  /\ run c [MDecode g (inl ErrUnexpectedEOF); MSelectErr; MReturned] =
    Some (setPc (setTask c g finished) AtLoop,
          [OClose g;
           OPrint (Wrap (Wrap ErrUnexpectedEOF unexpectedEofMessage)
                        retryMessage)])
  /\ (forall e : error,
      e <> EOF -> e <> ErrUnexpectedEOF ->
      run c [MDecode g (inl e); MSelectErr; MDeliver g; MReturned] =
      Some (setPc (setTask c g finished) AtLoop,
            [OClose g;
             OEmit {| ep := None;
                      err := Some (Wrap (Wrap e decodeMessage) decodeMessage) |};
             OPrint (Wrap (Wrap e decodeMessage) retryMessage)])).
Proof.
  intros Hpc Hctx Hg. pose proof (lookup_lt_Some _ _ _ Hg) as Hlt.
  split; [|split; [|intros e He1 He2]].
  - change [MDecode g (inl EOF); MSelectErr; MReturned]
      with ([MDecode g (inl EOF); MSelectErr] ++ [MReturned]).
    rewrite run_app.
    rewrite (run_stream_failure c g EOF Hpc Hctx Hg _ [] eq_refl).
    rewrite run_one, (exec_returned_live _ (Some (Wrap EOF eofMessage)))
      by (reflexivity || exact Hctx).
    reflexivity.
  - change [MDecode g (inl ErrUnexpectedEOF); MSelectErr; MReturned]
      with ([MDecode g (inl ErrUnexpectedEOF); MSelectErr] ++ [MReturned]).
    rewrite run_app.
    rewrite (run_stream_failure c g ErrUnexpectedEOF Hpc Hctx Hg _ [] eq_refl).
    rewrite run_one,
      (exec_returned_live _ (Some (Wrap ErrUnexpectedEOF unexpectedEofMessage)))
      by (reflexivity || exact Hctx).
    reflexivity.
  - change [MDecode g (inl e); MSelectErr; MDeliver g; MReturned]
      with ([MDecode g (inl e); MSelectErr] ++ [MDeliver g; MReturned]).
    rewrite run_app.
    rewrite (run_stream_failure c g e Hpc Hctx Hg (Wrap e decodeMessage)
               [SendEvent {| ep := None;
                             err := Some (Wrap (Wrap e decodeMessage)
                                               decodeMessage) |}])
      by (destruct e; try reflexivity; congruence).
    unfold run.
    erewrite exec_deliver
      by (unfold setPc, setTask; cbn [tasks];
          apply list_lookup_insert_eq, Hlt).
    rewrite (exec_returned_live _ (Some (Wrap e decodeMessage)))
      by (reflexivity || exact Hctx).
    unfold setPc, setTask, finished. cbn [ctxDone w pc tasks].
    rewrite list_insert_insert_eq. reflexivity.
Qed.

Lemma C3_stream_decode_failure_witness :
  run testConnected
      [MDecode 0 (inl undecodable); MSelectErr; MDeliver 0; MReturned] =
  Some (setPc (setTask testConnected 0 finished) AtLoop,
        [OClose 0;
         OEmit {| ep := None;
                  err := Some (Wrap (Wrap undecodable decodeMessage)
                                    decodeMessage) |};
         OPrint (Wrap (Wrap undecodable decodeMessage) retryMessage)]).
Proof.
  apply (C3_stream_decode_failure testConnected 0 eq_refl eq_refl eq_refl);
    discriminate.
Defined.

(** C3 as stated fails: when [Decode] returns [io.EOF] with the context
    live, the stream is closed, the watcher reconnects and the decode task
    has returned, and no result at all has been sent on the output queue. *)
Lemma C3_counterexample :
  exists c tr,
    run testStart
        [MLoop; MStart None; MDecode 0 (inl EOF); MSelectErr; MReturned;
         MLoop; MStart None] = Some (c, tr)
    /\ tr = [OStart testTarget 0; OClose 0;
             OPrint (Wrap (Wrap EOF eofMessage) retryMessage);
             OStart testTarget 0]
    /\ emitted tr = []
    /\ tasks c !! 0%nat = Some finished.
Proof. eexists _, _. split; [reflexivity|]. repeat split. Qed.

(** ** The reconnect loop *)

(** C7: when [StartChangeStream] returns an error, the step of [watch]
    prints it, sleeps one backoff interval and is back at the loop
    condition: nothing is sent on the output queue, no decode task gets
    anything to send, [lastSeenResourceVersion] is unchanged; and with the
    context still live the loop calls [StartChangeStream] again with the same
    arguments. *)
Theorem C7_connection_error (c : config) (e : error) :
  pc c = AtStart ->
  exec c (MStart (Some e)) =
    Some ({| ctxDone := ctxDone c; w := snd (Duration (w c)); pc := AtLoop;
             tasks := tasks c |},
          [OStart (target (w c)) (lastSeenResourceVersion (w c));
           OPrint (Wrap e startMessage);
           OSleep (retryBackoff (w c))])
  /\ lastSeenResourceVersion (snd (Duration (w c))) =
     lastSeenResourceVersion (w c)
  /\ (ctxDone c = false ->
      forall answer : option error,
      exists c' o,
        run c [MStart (Some e); MLoop; MStart answer] =
        Some (c', [OStart (target (w c)) (lastSeenResourceVersion (w c));
                   OPrint (Wrap e startMessage);
                   OSleep (retryBackoff (w c));
                   OStart (target (w c)) (lastSeenResourceVersion (w c))] ++ o)
        /\ emitted o = []).
Proof.
  intros Hpc. split; [|split].
  - unfold exec. rewrite Hpc. reflexivity.
  - reflexivity.
  - intros Hctx answer. unfold run, exec. rewrite Hpc.
    cbn [Duration pc ctxDone w tasks target lastSeenResourceVersion setPc].
    rewrite Hctx. cbn [pc].
    destruct answer as [e'|]; eexists _, _; (split; [reflexivity|]);
      reflexivity.
Qed.

Lemma C7_connection_error_witness :
  exec (setPc testStart AtStart) (MStart (Some (Failure "connection refused"))) =
    Some ({| ctxDone := false;
             w := {| target := testTarget; retryBackoff := 1;
                     lastSeenResourceVersion := 0 |};
             pc := AtLoop; tasks := [] |},
          [OStart testTarget 0;
           OPrint (Wrap (Failure "connection refused") startMessage);
           OSleep 0]).
Proof.
  exact (proj1 (C7_connection_error (setPc testStart AtStart)
                  (Failure "connection refused") eq_refl)).
Defined.

(** C8, as the code has it: when the decode task reports a stream
    termination error to [proxyEvents] and the context is live, the stream is
    closed, the error is printed and the loop calls [StartChangeStream] at
    once, exactly once, with the current [lastSeenResourceVersion]; there is
    no backoff wait on this path, and the watcher is then in [proxyEvents] on
    the new stream. *)
Theorem C8_reconnect_after_stream_error (c : config) (g : nat) (e : error)
    (rest : list send) (k : loopCtl) :
  pc c = AtSelect g -> ctxDone c = false ->
  tasks c !! g = Some {| todo := SendConnErr e :: rest; ctl := k |} ->
  run c [MSelectErr; MReturned; MLoop; MStart None] =
  Some ({| ctxDone := ctxDone c; w := w c; pc := AtSelect (length (tasks c));
           tasks := <[g := {| todo := rest; ctl := k |}]> (tasks c) ++ [reading] |},
        [OClose g; OPrint (Wrap e retryMessage);
         OStart (target (w c)) (lastSeenResourceVersion (w c))]).
Proof.
  destruct c as [d sw p ts]. simpl. intros -> -> Hg.
  unfold run, exec. simpl. rewrite Hg. simpl.
  rewrite length_insert. reflexivity.
Qed.

Lemma C8_reconnect_after_stream_error_witness :
  run testBroken [MSelectErr; MReturned; MLoop; MStart None] =
  Some ({| ctxDone := false;
           w := {| target := testTarget; retryBackoff := 0;
                   lastSeenResourceVersion := 123 |};
           pc := AtSelect 1;
           tasks := [finished; reading] |},
        [OClose 0;
         OPrint (Wrap (Wrap ErrUnexpectedEOF unexpectedEofMessage) retryMessage);
         OStart testTarget 123]).
Proof.
  exact (C8_reconnect_after_stream_error testBroken 0 _ [] Return
           eq_refl eq_refl eq_refl).
Defined.

(** C8 as stated fails: the stream breaks mid-read after one event with
    resource version 123, with the context live; the watcher reconnects with
    123 and the whole run contains no backoff wait. *)
Lemma C8_counterexample :
  exists c tr,
    run testStart
        [MLoop; MStart None;
         MDecode 0 (inr expectedEvent); MDeliver 0;
         MDecode 0 (inl ErrUnexpectedEOF); MSelectErr; MReturned;
         MLoop; MStart None] = Some (c, tr)
    /\ ctxDone c = false
    /\ startVersions tr = [0; 123]
    /\ sleeps tr = [].
Proof. eexists _, _. split; [reflexivity|]. repeat split. Qed.

(** ** Invariants of runs *)

(** A property of configuration and trace that every enabled move keeps
    holds along every schedule. *)
Lemma run_invariant (I : config -> list obs -> Prop) :
  (forall c tr m c' o, I c tr -> exec c m = Some (c', o) -> I c' (tr ++ o)) ->
  forall ms c tr0 c' tr,
    I c tr0 -> run c ms = Some (c', tr) -> I c' (tr0 ++ tr).
Proof.
  intros Hstep. induction ms as [|m ms IH]; intros c tr0 c' tr HI Hrun.
  - simpl in Hrun. injection Hrun as <- <-. rewrite app_nil_r. exact HI.
  - simpl in Hrun.
    destruct (exec c m) as [[c1 o]|] eqn:Hm; [|discriminate].
    destruct (run c1 ms) as [[c2 tr2]|] eqn:Hms; [|discriminate].
    injection Hrun as <- <-. rewrite app_assoc.
    eapply IH; [|exact Hms]. eapply Hstep; eauto.
Qed.

(** Leaving the select of [proxyEvents], by either branch, closes the
    stream: the deferred [stream.Close()]. *)
Lemma exec_select_exit (c : config) (g : nat) (m : move) (c' : config)
    (o : list obs) :
  pc c = AtSelect g -> exec c m = Some (c', o) ->
  (pc c' = AtSelect g /\ ~ In (OClose g) o)
  \/ ((exists e, pc c' = AtReturned e) /\ o = [OClose g]).
Proof.
  intros Hpc Hm. destruct m; exec_cases Hm;
    try (left; split; [assumption || reflexivity | simpl; intuition congruence]);
    right; split; eauto.
Qed.

Lemma closedOrCurrent_step (c : config) (tr : list obs) (m : move)
    (c' : config) (o : list obs) :
  closedOrCurrent c tr -> exec c m = Some (c', o) ->
  closedOrCurrent c' (tr ++ o).
Proof.
  unfold closedOrCurrent. intros HI Hm g Hlt. rewrite in_app_iff.
  destruct m; exec_cases Hm;
    rewrite ?length_insert, ?length_app in Hlt; simpl in Hlt;
    try (destruct (HI g Hlt) as [Hp|Hin]; [congruence || (left; exact Hp) | right; left; exact Hin]).
  all: try (destruct (decide (g = length (tasks c))) as [->|Hne];
            [left; reflexivity|];
            destruct (HI g ltac:(lia)) as [Hp|Hin]; [congruence | right; left; exact Hin]).
  all: try (destruct (HI g Hlt) as [Hp|Hin];
            [right; right; left; congruence | right; left; exact Hin]).
Qed.

(** Every stream the client hands out starts one decode task. *)
Lemma exec_streams (c : config) (m : move) (c' : config) (o : list obs) :
  exec c m = Some (c', o) ->
  length (tasks c') = (length (tasks c) + streamsOpened [m])%nat.
Proof.
  intros Hm. unfold streamsOpened.
  destruct m as [| |a| | | |g d|g]; unfold exec in Hm.
  - injection Hm as <- <-. simpl. lia.
  - destruct (pc c); try discriminate. injection Hm as <- <-. simpl. lia.
  - unfold Duration in Hm. destruct (pc c); try discriminate.
    destruct a; injection Hm as <- <-; simpl; rewrite ?length_app; simpl;
      lia.
  - destruct (pc c); try discriminate. destruct (ctxDone c); [|discriminate].
    injection Hm as <- <-. simpl. lia.
  - destruct (pc c); try discriminate.
    destruct (tasks c !! g) as [t|]; [|discriminate].
    destruct (todo t) as [|[e|r] rest]; [destruct (ctl t)| |];
      try discriminate; injection Hm as <- <-; simpl;
      rewrite ?length_insert; lia.
  - destruct (pc c); try discriminate.
    destruct (ctxDone c); injection Hm as <- <-; simpl; lia.
  - destruct (tasks c !! g) as [t|]; [|discriminate].
    destruct (todo t), (ctl t); try discriminate.
    destruct (decodeIteration _ _ d) as [[rv sends] k].
    injection Hm as <- <-. simpl. rewrite length_insert. lia.
  - destruct (tasks c !! g) as [t|]; [|discriminate].
    destruct (todo t) as [|[e|r] rest]; try discriminate.
    injection Hm as <- <-. simpl. rewrite length_insert. lia.
Qed.

Lemma run_streams (ms : list move) (c c' : config) (tr : list obs) :
  run c ms = Some (c', tr) ->
  length (tasks c') = (length (tasks c) + streamsOpened ms)%nat.
Proof.
  revert c tr. induction ms as [|m ms IH]; intros c tr Hrun; simpl in Hrun.
  - injection Hrun as <- <-. unfold streamsOpened. simpl. lia.
  - destruct (exec c m) as [[c1 o]|] eqn:Hm; [|discriminate].
    destruct (run c1 ms) as [[c2 tr2]|] eqn:Hms; [|discriminate].
    injection Hrun as <- <-.
    rewrite (IH _ _ Hms), (exec_streams _ _ _ _ Hm).
    change (m :: ms) with ([m] ++ ms).
    unfold streamsOpened. rewrite omap_app, length_app. lia.
Qed.

Lemma closesOn_In (handleOf : nat -> nat) (g : nat) (tr : list obs) :
  In (OClose g) tr -> (1 <= closesOn handleOf (handleOf g) tr)%nat.
Proof.
  unfold closesOn. induction tr as [|x tr IH]; intros Hin; [destruct Hin|].
  destruct Hin as [->|Hin].
  - simpl. rewrite Nat.eqb_refl. simpl. lia.
  - specialize (IH Hin). simpl.
    destruct x; simpl; try exact IH.
    destruct (Nat.eqb (handleOf g0) (handleOf g)); simpl;
      [apply le_n_S, Nat.le_0_l | exact IH].
Qed.

(** C10: in every run of the watcher, every invocation of [proxyEvents],
    one per stream the client has handed out, either is the one [watch] is
    still waiting in or has called [Close()] on the stream it was given; a
    move that takes [watch] out of the select of [proxyEvents], whichever
    branch it is (cancellation, or what the decode task reports), closes that
    stream in the same step; so, however the client identifies the objects it
    hands out, every stream object given to an invocation that has returned
    has been closed. *)
Theorem C10_stream_closed_on_return (done : bool) (t : targetEntry)
    (backoff : nat) (lastSeen : Z) (ms : list move) (c : config)
    (tr : list obs) :
  run (startWatchingEndpointsChanges done t backoff lastSeen) ms = Some (c, tr) ->
  (forall g : nat,
      (g < streamsOpened ms)%nat -> pc c = AtSelect g \/ In (OClose g) tr)
  /\ (forall (g : nat) (m : move) (c' : config) (o : list obs),
      pc c = AtSelect g -> exec c m = Some (c', o) ->
      (pc c' = AtSelect g /\ ~ In (OClose g) o)
      \/ ((exists e, pc c' = AtReturned e) /\ o = [OClose g]))
  /\ (forall (handleOf : nat -> nat) (g : nat),
      (g < streamsOpened ms)%nat -> pc c <> AtSelect g ->
      (1 <= closesOn handleOf (handleOf g) tr)%nat).
Proof.
  intros Hrun.
  pose proof (run_streams _ _ _ _ Hrun) as Hlen. simpl in Hlen.
  assert (closedOrCurrent c tr) as Hcc.
  { refine (run_invariant closedOrCurrent closedOrCurrent_step ms _ [] c tr
                          _ Hrun).
    intros g Hlt. simpl in Hlt. lia. }
  split; [|split].
  - intros g Hlt. apply Hcc. lia.
  - intros g m c' o. apply exec_select_exit.
  - intros handleOf g Hlt Hne.
    destruct (Hcc g ltac:(lia)) as [Hp|Hin]; [contradiction|].
    apply closesOn_In, Hin.
Qed.

Lemma C10_stream_closed_on_return_witness :
  streamsOpened flakySchedule = 2%nat
  /\ run testStart flakySchedule = Some flakyOutcome
  /\ (pc (fst flakyOutcome) = AtSelect 0 \/ In (OClose 0) (snd flakyOutcome))
  /\ (pc (fst flakyOutcome) = AtSelect 1 \/ In (OClose 1) (snd flakyOutcome))
  /\ (1 <= closesOn (fun _ => 0%nat) 0 (snd flakyOutcome))%nat.
Proof.
  destruct (C10_stream_closed_on_return false testTarget 0 0 flakySchedule
              (fst flakyOutcome) (snd flakyOutcome) eq_refl)
    as (H1 & _ & H3).
  split; [reflexivity|]. split; [reflexivity|].
  split; [apply (H1 0%nat); unfold streamsOpened; simpl; lia|].
  split; [apply (H1 1%nat); unfold streamsOpened; simpl; lia|].
  apply (H3 (fun _ => 0%nat) 1%nat);
    [unfold streamsOpened; simpl; lia | discriminate].
Defined.

(** ** The shape of the results on the output queue *)

Lemma decodeIteration_shape (ce : option error) (v : Z) (d : error + event)
    (v' : Z) (sends : list send) (k : loopCtl) (r : watchResult) :
  decodeIteration ce v d = (v', sends, k) ->
  In (SendEvent r) sends -> resultShape r.
Proof.
  unfold decodeIteration, resultShape. intros Hit Hin.
  destruct d as [e|got].
  - destruct ce; [simplify_eq/=; tauto|].
    destruct e; simplify_eq/=; intuition (simplify_eq/=; exact I).
  - destruct (isWatchType (Type_ got)) eqn:Hty.
    + destruct (Atoi _) as [rv [e|]] eqn:Hat; simplify_eq/=;
        destruct Hin as [Hin|[]]; simplify_eq/=; rewrite Hat; auto.
    + simplify_eq/=. destruct Hin as [Hin|[]]. simplify_eq/=. exact I.
Qed.

Lemma shapesOk_step (c : config) (tr : list obs) (m : move) (c' : config)
    (o : list obs) :
  shapesOk c tr -> exec c m = Some (c', o) -> shapesOk c' (tr ++ o).
Proof.
  intros [Htr Hts] Hm.
  assert (forall g t t',
             tasks c !! g = Some t ->
             (forall s, In s (todo t') -> In s (todo t)) ->
             forall g' t'' r, <[g := t']> (tasks c) !! g' = Some t'' ->
             In (SendEvent r) (todo t'') -> resultShape r) as Hins.
  { intros g t t' Hg Hsub g' t'' r Hl Hin.
    apply list_lookup_insert_Some in Hl as [(-> & -> & _)|[_ Hl]].
    - eapply Hts; [exact Hg|]. apply Hsub, Hin.
    - eapply Hts; eauto. }
  destruct m; exec_cases Hm; split;
    try (intros r Hin; apply in_app_iff in Hin as [Hin|Hin];
         [exact (Htr r Hin) | simpl in Hin; intuition congruence]);
    try exact Hts.
  - intros g t r Hl Hin. simpl in Hl.
    apply lookup_app_Some in Hl as [Hl|[_ Hl]]; [eauto|].
    apply list_lookup_singleton_Some in Hl as [_ <-]. destruct Hin.
  - eapply Hins; [eassumption|]. simpl. intros s Hs.
    match goal with H : todo _ = _ |- _ => rewrite H end. right. exact Hs.
  - intros g' t' r Hl Hin. simpl in Hl.
    apply list_lookup_insert_Some in Hl as [(-> & <- & _)|[_ Hl]]; [|eauto].
    eapply decodeIteration_shape; eauto.
  - intros r' Hin. apply in_app_iff in Hin as [Hin|[Hin|[]]]; [eauto|].
    simplify_eq. eapply Hts; [eassumption|].
    match goal with H : todo _ = _ |- _ => rewrite H end. left. reflexivity.
  - eapply Hins; [eassumption|]. simpl. intros s Hs.
    match goal with H : todo _ = _ |- _ => rewrite H end. right. exact Hs.
Qed.

(** C2, as the code has it: every result the watcher sends on the output
    queue has at least one of its two fields set.  It has both set exactly in
    one case, an event of a known type whose resourceVersion [strconv.Atoi]
    rejects: that result carries the event and the parse error.  A result
    with an event and no error is an event of a known type whose
    resourceVersion parses; every other result carries an error only. *)
Theorem C2_result_fields (done : bool) (t : targetEntry) (backoff : nat)
    (lastSeen : Z) (ms : list move) (c : config) (tr : list obs)
    (r : watchResult) :
  run (startWatchingEndpointsChanges done t backoff lastSeen) ms = Some (c, tr) ->
  In (OEmit r) tr ->
  match ep r, err r with
  | Some ev, None =>
      isWatchType (Type_ ev) = true
      /\ snd (Atoi (ResourceVersion (Metadata (Object ev)))) = None
  | Some ev, Some e =>
      isWatchType (Type_ ev) = true
      /\ snd (Atoi (ResourceVersion (Metadata (Object ev)))) = Some e
  | None, Some _ => True
  | None, None => False
  end.
Proof.
  intros Hrun Hin.
  refine (proj1 (run_invariant shapesOk shapesOk_step ms _ [] c tr _ Hrun)
                r Hin).
  split; [intros ? []|]. intros g t' r' Hl. destruct g; discriminate Hl.
Qed.

Lemma C2_result_fields_witness :
  isWatchType (Type_ expectedEvent) = true
  /\ snd (Atoi (ResourceVersion (Metadata (Object expectedEvent)))) = None.
Proof.
  apply (C2_result_fields false testTarget 0 0 testSchedule _ _
           {| ep := Some expectedEvent; err := None |} eq_refl).
  simpl. tauto.
Defined.

(** C2 as stated fails: for an ADDED event whose resourceVersion is not a
    number the result sent on the output queue has both fields set: the
    event and the parse error. *)
Lemma C2_counterexample :
  exists c tr r,
    run testStart
        [MLoop; MStart None; MDecode 0 (inr (eventOf added "abc")); MDeliver 0]
      = Some (c, tr)
    /\ In (OEmit r) tr
    /\ ep r = Some (eventOf added "abc")
    /\ err r = Some (NumError "Atoi" "abc" ErrSyntax).
Proof.
  eexists _, _, _. split; [reflexivity|]. split; [right; left; reflexivity|].
  split; reflexivity.
Qed.

(** ** The last seen resource version *)

Lemma exec_lastSeen (c : config) (m : move) (c' : config) (o : list obs) :
  exec c m = Some (c', o) ->
  lastSeenResourceVersion (w c') =
  default (lastSeenResourceVersion (w c)) (versionOf m).
Proof.
  intros Hm.
  destruct m as [| |a| | | |g d|g]; try (exec_cases Hm; reflexivity).
  { unfold exec, Duration in Hm.
    destruct (pc c); try discriminate.
    destruct a; simplify_eq/=; reflexivity. }
  unfold exec in Hm.
  destruct (tasks c !! g) as [t|]; [|discriminate].
  destruct (todo t), (ctl t); try discriminate.
  unfold decodeIteration in Hm. destruct d as [e|got]; simpl.
  - destruct (ctxErr c); [|destruct e]; simplify_eq/=; reflexivity.
  - destruct (isWatchType (Type_ got));
      [destruct (Atoi _) as [rv [e|]]|]; simplify_eq/=; reflexivity.
Qed.

Lemma run_lastSeen (ms : list move) (c c' : config) (tr : list obs) :
  run c ms = Some (c', tr) ->
  lastSeenResourceVersion (w c') =
  assigned (lastSeenResourceVersion (w c)) (omap versionOf ms).
Proof.
  revert c tr. induction ms as [|m ms IH]; intros c tr Hrun; simpl in Hrun.
  - simplify_eq. reflexivity.
  - destruct (exec c m) as [[c1 o]|] eqn:Hm; [|discriminate].
    destruct (run c1 ms) as [[c2 tr2]|] eqn:Hms; [|discriminate].
    simplify_eq. rewrite (IH _ _ Hms), (exec_lastSeen _ _ _ _ Hm).
    simpl. destruct (versionOf m); reflexivity.
Qed.

Lemma assigned_sorted (xs : list Z) (v : Z) :
  StronglySorted Z.le (v :: xs) -> v <= assigned v xs.
Proof.
  revert v. induction xs as [|x xs IH]; intros v Hs.
  - unfold assigned. simpl. lia.
  - change (assigned v (x :: xs)) with (assigned x xs).
    inversion Hs as [|? ? Hs' Hall]; subst.
    inversion Hall as [|? ? Hvx _]; subst.
    specialize (IH x Hs'). lia.
Qed.

Lemma sorted_prefix (xs ys : list Z) :
  StronglySorted Z.le (xs ++ ys) -> StronglySorted Z.le xs.
Proof.
  induction xs as [|x xs IH]; intros Hs; [constructor|].
  simpl in Hs. inversion Hs as [|? ? Hs' Hall]; subst.
  constructor; [apply IH, Hs'|].
  apply Forall_app in Hall as [Hl _]. exact Hl.
Qed.

Lemma assigned_sorted_app (xs ys : list Z) (v : Z) :
  StronglySorted Z.le (v :: xs ++ ys) ->
  StronglySorted Z.le (assigned v xs :: ys).
Proof.
  revert v. induction xs as [|x xs IH]; intros v Hs; [exact Hs|].
  change (assigned v (x :: xs)) with (assigned x xs).
  apply IH. inversion Hs; assumption.
Qed.

(** C5, as the code has it: [lastSeenResourceVersion] is assigned the
    resource version of every event of a known type whose resourceVersion
    parses, without comparing it to the value it holds, and no other move
    changes it; in particular an event whose resourceVersion fails to parse
    leaves it as it is.  So along a run it is non-decreasing whenever the
    parsed resource versions arrive in non-decreasing order, starting at or
    above the initial value. *)
Theorem C5_last_seen_follows_events (c : config) :
  (forall m c' o,
      exec c m = Some (c', o) ->
      lastSeenResourceVersion (w c') =
      default (lastSeenResourceVersion (w c)) (versionOf m))
  /\ (forall ms1 ms2 c1 c2 tr1 tr2,
      run c ms1 = Some (c1, tr1) -> run c1 ms2 = Some (c2, tr2) ->
      Sorted Z.le (lastSeenResourceVersion (w c) :: omap versionOf (ms1 ++ ms2)) ->
      lastSeenResourceVersion (w c) <= lastSeenResourceVersion (w c1)
      /\ lastSeenResourceVersion (w c1) <= lastSeenResourceVersion (w c2)).
Proof.
  split; [apply exec_lastSeen|].
  intros ms1 ms2 c1 c2 tr1 tr2 H1 H2 Hs.
  apply Sorted_StronglySorted in Hs; [|intros x y z; apply Z.le_trans].
  rewrite omap_app in Hs.
  rewrite (run_lastSeen _ _ _ _ H2), (run_lastSeen _ _ _ _ H1). split.
  - apply assigned_sorted.
    apply (sorted_prefix (_ :: omap versionOf ms1) (omap versionOf ms2)), Hs.
  - apply assigned_sorted, assigned_sorted_app, Hs.
Qed.

Lemma C5_last_seen_follows_events_witness :
  0 <= 5 /\ 5 <= 7.
Proof.
  refine (proj2 (C5_last_seen_follows_events testConnected)
            [MDecode 0 (inr (eventOf added "5")); MDeliver 0]
            [MDecode 0 (inr (eventOf modified "x")); MDeliver 0;
             MDecode 0 (inr (eventOf modified "7")); MDeliver 0]
            _ _ _ _ eq_refl eq_refl _).
  change (Sorted Z.le [0; 5; 7]). repeat constructor; lia.
Defined.

(** C5 as stated fails: after an event with resource version 5 the stream
    delivers one with resource version 3; both parse, and
    [lastSeenResourceVersion] goes from 5 down to 3. *)
Lemma C5_counterexample :
  exists c1 c2 tr1 tr2,
    run testStart
        [MLoop; MStart None; MDecode 0 (inr (eventOf added "5")); MDeliver 0]
      = Some (c1, tr1)
    /\ run c1 [MDecode 0 (inr (eventOf modified "3")); MDeliver 0]
       = Some (c2, tr2)
    /\ lastSeenResourceVersion (w c1) = 5
    /\ lastSeenResourceVersion (w c2) = 3
    /\ emitted (tr1 ++ tr2) =
       [ {| ep := Some (eventOf added "5"); err := None |};
         {| ep := Some (eventOf modified "3"); err := None |} ].
Proof. eexists _, _, _, _. repeat split. Qed.

(** ** Cancellation *)

Lemma stopping_step (c0 c : config) (tr : list obs) (m : move) (c' : config)
    (o : list obs) :
  stopping c0 c tr -> exec c m = Some (c', o) -> stopping c0 c' (tr ++ o).
Proof.
  intros (Hctx & Hn & Hsel & Hex) Hm.
  unfold stopping, startVersions. rewrite omap_app, length_app.
  fold (startVersions tr). fold (startVersions o).
  split; [|split; [|split]].
  - destruct m; exec_cases Hm; reflexivity || assumption.
  - destruct m; exec_cases Hm; simpl;
      repeat match goal with H : pc c = _ |- _ => rewrite H in Hn end;
      simpl in Hn; try lia;
      destruct (pc c); simpl in *; lia.
  - intros g Hg. rewrite in_app_iff.
    destruct (Hsel g Hg) as [Hp|Hin]; [|right; left; exact Hin].
    destruct (exec_select_exit c g m c' o Hp Hm) as [[Hp' _]|[_ ->]];
      [left; exact Hp' | right; right; left; reflexivity].
  - intros H0. specialize (Hex H0).
    destruct m; exec_cases Hm; congruence.
Qed.

(** C9, as the code has it, once the context is cancelled: a decode task
    whose [Decode] fails sends nothing and returns; the reconnect loop exits
    at its next step, and when it is inside [proxyEvents] it first closes the
    stream; whatever the schedule, the context stays cancelled, [watch] makes
    no call of [StartChangeStream] other than one it was already committed to
    past the loop condition, the stream [proxyEvents] was waiting on is
    closed when [watch] has left it, and an exited [watch] stays exited.
    Nothing is said here about a decode task whose [Decode] succeeds or whose
    send was already pending. *)
Theorem C9_after_cancellation (c : config) :
  ctxDone c = true ->
  (forall g e,
      tasks c !! g = Some reading ->
      exec c (MDecode g (inl e)) = Some (setTask c g finished, []))
  /\ (pc c = AtLoop -> run c [MLoop] = Some (setPc c Exited, []))
  /\ (forall g,
      pc c = AtSelect g ->
      run c [MSelectDone; MReturned] = Some (setPc c Exited, [OClose g]))
  /\ (forall e,
      pc c = AtReturned e -> run c [MReturned] = Some (setPc c Exited, []))
  /\ (forall ms c' tr,
      run c ms = Some (c', tr) ->
      ctxDone c' = true
      /\ (length (startVersions tr) <= pendingStart (pc c))%nat
      /\ (forall g, pc c = AtSelect g -> pc c' = AtSelect g \/ In (OClose g) tr)
      /\ (pc c = Exited -> pc c' = Exited)).
Proof.
  intros Hctx. repeat split.
  - intros g e Hg.
    assert (ctxErr c = Some Canceled) as Hce
      by (unfold ctxErr; rewrite Hctx; reflexivity).
    rewrite (exec_decode c g (inl e) Hg), Hce. unfold decodeIteration.
    rewrite setLastSeen_same. reflexivity.
  - intros Hpc. unfold run, exec. rewrite Hpc, Hctx. reflexivity.
  - intros g Hpc. unfold run, exec. rewrite Hpc, Hctx. simpl.
    rewrite Hctx. reflexivity.
  - intros e Hpc. unfold run, exec. rewrite Hpc, Hctx. reflexivity.
  - eapply (run_invariant (stopping c) (stopping_step c) ms c [] c' tr); eauto.
    unfold stopping. simpl. auto.
  - pose proof (run_invariant (stopping c) (stopping_step c) ms c [] c' tr)
      as Hinv.
    destruct Hinv as (_ & Hn & _); [unfold stopping; simpl; auto | assumption |].
    simpl in Hn. lia.
  - eapply (run_invariant (stopping c) (stopping_step c) ms c [] c' tr); eauto.
    unfold stopping. simpl. auto.
  - eapply (run_invariant (stopping c) (stopping_step c) ms c [] c' tr); eauto.
    unfold stopping. simpl. auto.
Qed.

Lemma C9_after_cancellation_witness :
  run testCancelled [MSelectDone; MReturned] =
  Some (setPc testCancelled Exited, [OClose 0]).
Proof.
  destruct (C9_after_cancellation testCancelled eq_refl) as (_ & _ & H & _).
  exact (H 0%nat eq_refl).
Defined.

(** C9 as stated fails: the context is cancelled while [proxyEvents] waits;
    [watch] closes the stream and exits; the decode task, whose [Decode] then
    still returns an event, sends it on the output queue, after the
    cancellation. *)
Lemma C9_counterexample :
  exists c tr,
    run testStart
        [MLoop; MStart None; MCancel; MSelectDone; MReturned;
         MDecode 0 (inr expectedEvent); MDeliver 0] = Some (c, tr)
    /\ pc c = Exited
    /\ tr = [OStart testTarget 0; OCancel; OClose 0;
             OEmit {| ep := Some expectedEvent; err := None |}].
Proof. eexists _, _. repeat split. Qed.

(** ** The resource version passed on reconnecting *)

Lemma emitted_app (tr o : list obs) : emitted (tr ++ o) = emitted tr ++ emitted o.
Proof. apply omap_app. Qed.

Lemma lastParsed_app (v : Z) (rs rs' : list watchResult) :
  lastParsed v (rs ++ rs') = lastParsed (lastParsed v rs) rs'.
Proof. apply fold_left_app. Qed.

Lemma startsOk_app (tg : targetEntry) (tr o : list obs) (v : Z) :
  startsOk tg v tr -> startsOk tg (lastParsed v (emitted tr)) o ->
  startsOk tg v (tr ++ o).
Proof.
  revert v. induction tr as [|x tr IH]; intros v Htr Ho; [exact Ho|].
  destruct x; simpl in *; try (apply IH; assumption).
  destruct Htr as (-> & -> & Htr). repeat split. apply IH; assumption.
Qed.

Lemma startsOk_split (tg : targetEntry) (tr1 tr2 : list obs) (v : Z)
    (tg' : targetEntry) (rv : Z) :
  startsOk tg v (tr1 ++ OStart tg' rv :: tr2) ->
  tg' = tg /\ rv = lastParsed v (emitted tr1).
Proof.
  revert v. induction tr1 as [|x tr1 IH]; intros v H.
  - simpl in H. destruct H as (-> & -> & _). split; reflexivity.
  - destruct x; simpl in H; try (apply IH; assumption).
    destruct H as (_ & _ & H). apply IH, H.
Qed.

Lemma lastParsed_quiet (l : list send) (v : Z) :
  quietSends l -> lastParsed v (pendingResults l) = v.
Proof.
  induction l as [|s l IH]; intros Hq; [reflexivity|].
  assert (quietSends l) as Hq' by (intros r Hr; apply Hq; right; exact Hr).
  destruct s as [e|r]; simpl; [exact (IH Hq')|].
  unfold lastParsed in *. simpl. rewrite (Hq r (or_introl eq_refl)).
  simpl. exact (IH Hq').
Qed.

Lemma decodeIteration_resume (ce : option error) (v : Z) (d : error + event)
    (v' : Z) (sends : list send) (k : loopCtl) :
  decodeIteration ce v d = (v', sends, k) ->
  v' = lastParsed v (pendingResults sends)
  /\ taskWf {| todo := sends; ctl := k |}.
Proof.
  unfold decodeIteration, taskWf, quietSends. intros Hit.
  destruct d as [e|got].
  - destruct ce; [|destruct e]; simplify_eq/=;
      (split; [reflexivity|]); split; intros; intuition (simplify_eq/=; reflexivity).
  - destruct (isWatchType (Type_ got)) eqn:Hty;
      [destruct (Atoi _) as [rv [e|]] eqn:Hat|]; simplify_eq/=.
    + split; [reflexivity|]. split; [discriminate|]. intros; intuition discriminate.
    + split; [|split; [discriminate|intros; intuition discriminate]].
      unfold lastParsed, parsedVersion. simpl. rewrite Hat. reflexivity.
    + split; [reflexivity|]. split; [discriminate|]. intros; intuition discriminate.
Qed.

Lemma taskWf_tail (s : send) (l : list send) (k : loopCtl) :
  taskWf {| todo := s :: l; ctl := k |} -> taskWf {| todo := l; ctl := k |}.
Proof.
  unfold taskWf, quietSends. simpl. intros [H1 H2]. split.
  - intros Hk r Hr. apply (H1 Hk). right. exact Hr.
  - intros e He. apply (H2 e). right. exact He.
Qed.

Lemma quietTask_tail (s : send) (l : list send) (k : loopCtl) :
  quietTask {| todo := s :: l; ctl := k |} ->
  quietTask {| todo := l; ctl := k |}.
Proof.
  unfold quietTask, quietSends. simpl. intros [H1 H2]. split; [exact H1|].
  intros r Hr. apply H2. right. exact Hr.
Qed.

Lemma task_eta (t : decodeTask) : {| todo := todo t; ctl := ctl t |} = t.
Proof. destruct t; reflexivity. Qed.

Lemma resumes_step (tg : targetEntry) (v : Z) (c : config) (tr : list obs)
    (m : move) (c' : config) (o : list obs) :
  resumes tg v c tr -> exec c m = Some (c', o) -> resumes tg v c' (tr ++ o).
Proof.
  intros (Htg & Htr & Hwf & Hpc) Hm.
  unfold resumes. rewrite emitted_app, lastParsed_app.
  set (L := lastParsed v (emitted tr)) in *.
  destruct m as [| |a| | | |g d|g].
  - (* MCancel *)
    exec_cases Hm. split4; try assumption.
    + apply startsOk_app; simpl; auto.
    + unfold pcInv in *. simpl.
      destruct (pc c); try exact Hpc. left. reflexivity.
  - (* MLoop *)
    unfold exec in Hm. destruct (pc c) eqn:Hp; try discriminate.
    simplify_eq/=. unfold pcInv in Hpc. rewrite Hp in Hpc.
    split4; try assumption.
    + apply startsOk_app; simpl; auto.
    + unfold pcInv. simpl. destruct (ctxDone c); [exact I|exact Hpc].
  - (* MStart *)
    unfold exec, Duration in Hm. unfold pcInv in Hpc.
    destruct (pc c) eqn:Hp; try discriminate.
    destruct Hpc as [Hq Hls].
    destruct a as [e|]; simplify_eq/=.
    + split4; try assumption.
      * apply startsOk_app; simpl; auto.
      * unfold pcInv. simpl. split; assumption.
    + split4; try assumption.
      * apply startsOk_app; simpl; auto.
      * intros g t Hl. apply lookup_app_Some in Hl as [Hl|[_ Hl]]; [eauto|].
        apply list_lookup_singleton_Some in Hl as [_ <-].
        split; [discriminate|intros e []].
      * unfold pcInv, attached. simpl. split.
        -- intros g' t Hne Hl.
           apply lookup_app_Some in Hl as [Hl|[Hge Hl]]; [eauto|].
           apply list_lookup_singleton_Some in Hl as [Hz _]. lia.
        -- exists reading. split; [|exact Hls].
           rewrite lookup_app_r by lia. rewrite Nat.sub_diag. reflexivity.
  - (* MSelectDone *)
    exec_cases Hm. split4; try assumption.
    + apply startsOk_app; simpl; auto.
    + unfold pcInv. simpl. left. assumption.
  - (* MSelectErr *)
    unfold exec in Hm. unfold pcInv in Hpc.
    destruct (pc c) eqn:Hp; try discriminate.
    destruct Hpc as [Hq (t & Hl & Hls)]. rewrite Hl in Hm.
    pose proof (Hwf _ _ Hl) as Hwft. rewrite <- (task_eta t) in Hwft.
    destruct (todo t) as [|[e|r] rest] eqn:Htodo.
    + destruct (ctl t) eqn:Hk; simplify_eq/=.
      split4; try assumption.
      * apply startsOk_app; simpl; auto.
      * unfold pcInv. simpl. right. split; [|exact Hls].
        intros g' t' Hl'. simpl in Hl'.
        destruct (decide (g' = g)) as [->|Hne]; [|eauto].
        rewrite Hl in Hl'. injection Hl' as <-.
        split; [exact Hk|]. rewrite Htodo. intros r [].
    + assert (ctl t = Return) as Hk
        by (apply (proj2 Hwft e); left; reflexivity).
      simplify_eq/=.
      assert (quietTask {| todo := rest; ctl := ctl t |}) as Hquiet.
      { split; [exact Hk|]. intros r Hr.
        apply (proj1 Hwft Hk). right. exact Hr. }
      split4; try assumption.
      * apply startsOk_app; simpl; auto.
      * intros g' t' Hl'.
        apply list_lookup_insert_Some in Hl' as [(-> & <- & _)|[_ Hl']];
          [|eauto].
        apply (taskWf_tail _ _ _ Hwft).
      * unfold pcInv. simpl. right. split.
        -- intros g' t' Hl'.
           apply list_lookup_insert_Some in Hl' as [(-> & <- & _)|[Hne Hl']];
             [exact Hquiet|eauto].
        -- simpl. rewrite Hls.
           apply (lastParsed_quiet rest L), Hquiet.
    + destruct (ctl t); discriminate.
  - (* MReturned *)
    exec_cases Hm; unfold pcInv in Hpc;
      match goal with H : pc c = _ |- _ => rewrite H in Hpc end;
      split4; try assumption;
        try (apply startsOk_app; simpl; auto);
        unfold pcInv; simpl; try exact I;
        destruct Hpc as [Hpc|Hpc]; congruence || exact Hpc.
  - (* MDecode *)
    unfold exec in Hm.
    destruct (tasks c !! g) as [t|] eqn:Hl; [|discriminate].
    destruct (todo t) eqn:Htodo; [|discriminate].
    destruct (ctl t) eqn:Hk; [|discriminate].
    destruct (decodeIteration _ _ d) as [[rv sends] k] eqn:Hit.
    apply decodeIteration_resume in Hit as [Hrv Hwf'].
    simplify_eq/=.
    assert (~ quietTask t) as Hnq by (intros [Hc _]; congruence).
    split4; try assumption.
    + apply startsOk_app; simpl; auto.
    + intros g' t' Hl'.
      apply list_lookup_insert_Some in Hl' as [(-> & <- & _)|[_ Hl']];
        [exact Hwf'|eauto].
    + unfold pcInv in *. simpl.
      destruct (pc c) eqn:Hp.
      * destruct Hpc as [Hq _]. destruct (Hnq (Hq _ _ Hl)).
      * destruct Hpc as [Hq _]. destruct (Hnq (Hq _ _ Hl)).
      * destruct Hpc as [Hq (t0 & Hl0 & Hls)].
        destruct (decide (g = g0)) as [->|Hne];
          [|destruct (Hnq (Hq _ _ Hne Hl))].
        rewrite Hl in Hl0. injection Hl0 as <-.
        rewrite Htodo in Hls. simpl in Hls. split.
        -- intros g' t' Hne Hl'.
           simpl in Hl'.
           rewrite list_lookup_insert_ne in Hl' by congruence. eauto.
        -- eexists. split;
             [simpl; apply list_lookup_insert_eq; eapply lookup_lt_Some; exact Hl|].
           simpl. rewrite Hls. reflexivity.
      * destruct Hpc as [Hc|[Hq _]]; [left; exact Hc|].
        destruct (Hnq (Hq _ _ Hl)).
      * exact I.
  - (* MDeliver *)
    unfold exec in Hm.
    destruct (tasks c !! g) as [t|] eqn:Hl; [|discriminate].
    destruct (todo t) as [|[e|r] rest] eqn:Htodo; try discriminate.
    simplify_eq/=.
    pose proof (Hwf _ _ Hl) as Hwft. rewrite <- (task_eta t), Htodo in Hwft.
    assert (forall g' t',
               <[g := {| todo := rest; ctl := ctl t |}]> (tasks c) !! g' = Some t' ->
               (forall g'' t'', tasks c !! g'' = Some t'' -> g'' = g' -> quietTask t'') ->
               quietTask t') as Hqins.
    { intros g' t' Hl' Hq.
      apply list_lookup_insert_Some in Hl' as [(-> & <- & _)|[Hne Hl']];
        [|eauto].
      specialize (Hq _ _ Hl eq_refl). rewrite <- (task_eta t), Htodo in Hq.
      apply (quietTask_tail _ _ _ Hq). }
    assert (quietTask t -> default L (parsedVersion r) = L) as HL.
    { intros [_ Hq]. rewrite Htodo in Hq.
      rewrite (Hq r (or_introl eq_refl)). reflexivity. }
    split4; try assumption.
    + apply startsOk_app; simpl; auto.
    + intros g' t' Hl'.
      apply list_lookup_insert_Some in Hl' as [(-> & <- & _)|[_ Hl']];
        [|eauto].
      apply (taskWf_tail _ _ _ Hwft).
    + change (lastParsed L (emitted [OEmit r]))
        with (default L (parsedVersion r)).
      unfold pcInv in *. simpl.
      destruct (pc c) eqn:Hp.
      * destruct Hpc as [Hq Hls]. rewrite (HL (Hq _ _ Hl)).
        split; [|exact Hls]. intros g' t' Hl'. eapply Hqins; eauto.
      * destruct Hpc as [Hq Hls]. rewrite (HL (Hq _ _ Hl)).
        split; [|exact Hls]. intros g' t' Hl'. eapply Hqins; eauto.
      * destruct Hpc as [Hq (t0 & Hl0 & Hls)].
        destruct (decide (g = g0)) as [->|Hne].
        -- rewrite Hl in Hl0. injection Hl0 as <-. split.
           ++ intros g' t' Hne Hl'.
              simpl in Hl'.
           rewrite list_lookup_insert_ne in Hl' by congruence. eauto.
           ++ eexists. split;
                [simpl; apply list_lookup_insert_eq; eapply lookup_lt_Some; exact Hl|].
              simpl. rewrite Hls, Htodo. reflexivity.
        -- rewrite (HL (Hq _ _ Hne Hl)). split.
           ++ intros g' t' Hne' Hl'. eapply Hqins; eauto.
              intros g'' t'' Hl'' ->. eauto.
           ++ exists t0. split; [|exact Hls].
              simpl. rewrite list_lookup_insert_ne by congruence. exact Hl0.
      * destruct Hpc as [Hc|[Hq Hls]]; [left; exact Hc|right].
        rewrite (HL (Hq _ _ Hl)).
        split; [|exact Hls]. intros g' t' Hl'. eapply Hqins; eauto.
      * exact I.
Qed.

(** C1, as the code has it: in every run of the watcher, every call of
    [StartChangeStream], and so the next one after a stream termination
    error, is for the watcher's target and passes the resource version of the
    most recent event whose resourceVersion was successfully parsed, that is,
    of the last result sent on the output queue that carries an event and no
    error; when no such event has been seen it passes the initial value.  The
    value is never an earlier one; it is zero when that most recent resource
    version is itself zero. *)
Theorem C1_reconnect_resource_version (done : bool) (t : targetEntry)
    (backoff : nat) (lastSeen : Z) (ms : list move) (c : config)
    (tr1 tr2 : list obs) (tg : targetEntry) (rv : Z) :
  run (startWatchingEndpointsChanges done t backoff lastSeen) ms =
    Some (c, tr1 ++ OStart tg rv :: tr2) ->
  tg = t /\ rv = lastParsed lastSeen (emitted tr1).
Proof.
  intros Hrun. apply (startsOk_split t tr1 tr2).
  refine (proj1 (proj2 (run_invariant (resumes t lastSeen)
                          (resumes_step t lastSeen) ms _ [] c _ _ Hrun))).
  split4; [exact I| |].
  - intros g t' Hl. destruct g; discriminate Hl.
  - unfold pcInv, settled. simpl. split; [|reflexivity].
    intros g t' Hl. destruct g; discriminate Hl.
Qed.

Lemma C1_reconnect_resource_version_witness :
  testTarget = testTarget
  /\ 123 = lastParsed 0
             (emitted [OStart testTarget 0;
                       OEmit {| ep := Some expectedEvent; err := None |};
                       OClose 0;
                       OPrint (Wrap (Wrap ErrUnexpectedEOF unexpectedEofMessage)
                                    retryMessage)]).
Proof.
  exact (C1_reconnect_resource_version false testTarget 0 0
           [MLoop; MStart None;
            MDecode 0 (inr expectedEvent); MDeliver 0;
            MDecode 0 (inl ErrUnexpectedEOF); MSelectErr; MReturned;
            MLoop; MStart None]
           {| ctxDone := false;
              w := {| target := testTarget; retryBackoff := 0;
                      lastSeenResourceVersion := 123 |};
              pc := AtSelect 1; tasks := [finished; reading] |}
           [OStart testTarget 0;
            OEmit {| ep := Some expectedEvent; err := None |};
            OClose 0;
            OPrint (Wrap (Wrap ErrUnexpectedEOF unexpectedEofMessage)
                         retryMessage)]
           [] testTarget 123 eq_refl).
Defined.

(** C1 as stated fails: the watcher starts at resource version 7, the stream
    delivers an event whose resourceVersion is "0", which parses, and then
    ends; the next call of [StartChangeStream] passes zero although an event
    has been successfully parsed. *)
Lemma C1_counterexample :
  exists c tr1 tr2,
    run (startWatchingEndpointsChanges false testTarget 0 7)
        [MLoop; MStart None;
         MDecode 0 (inr (eventOf modified "0")); MDeliver 0;
         MDecode 0 (inl EOF); MSelectErr; MReturned;
         MLoop; MStart None] = Some (c, tr1 ++ OStart testTarget 0 :: tr2)
    /\ emitted tr1 = [ {| ep := Some (eventOf modified "0"); err := None |} ]
    /\ parsedVersion {| ep := Some (eventOf modified "0"); err := None |}
       = Some 0.
Proof.
  exists {| ctxDone := false;
            w := {| target := testTarget; retryBackoff := 0;
                    lastSeenResourceVersion := 0 |};
            pc := AtSelect 1; tasks := [finished; reading] |},
    [OStart testTarget 7;
     OEmit {| ep := Some (eventOf modified "0"); err := None |};
     OClose 0; OPrint (Wrap (Wrap EOF eofMessage) retryMessage)],
    [].
  repeat split.
Qed.

(** * Further properties of the watcher *)

Lemma sleeps_app (tr o : list obs) : sleeps (tr ++ o) = sleeps tr ++ sleeps o.
Proof. apply omap_app. Qed.

Lemma startVersions_app (tr o : list obs) :
  startVersions (tr ++ o) = startVersions tr ++ startVersions o.
Proof. apply omap_app. Qed.

Lemma closeCount_app (g : nat) (tr o : list obs) :
  closeCount g (tr ++ o) = (closeCount g tr + closeCount g o)%nat.
Proof. unfold closeCount. rewrite omap_app, length_app. reflexivity. Qed.

(** ** The backoff counter *)

Lemma backoffCounts_step (b : nat) (c : config) (tr : list obs) (m : move)
    (c' : config) (o : list obs) :
  backoffCounts b c tr -> exec c m = Some (c', o) ->
  backoffCounts b c' (tr ++ o).
Proof.
  unfold backoffCounts. intros [Hs Hb] Hm. rewrite sleeps_app, length_app.
  destruct m as [| |a| | | |g d|g];
    try (exec_cases Hm; rewrite app_nil_r, Nat.add_0_r; split; assumption).
  - unfold exec, Duration in Hm. destruct (pc c); try discriminate.
    destruct a as [e|]; simplify_eq/=.
    + rewrite seq_app, <- Hs, Hb. split; [reflexivity|lia].
    + rewrite app_nil_r, Nat.add_0_r. split; assumption.
Qed.

(** X1: the backoff is never reset.  In every run of a watcher started with
    the backoff counter at [b], the backoff waits are the attempts [b],
    [b+1], [b+2], ... in this order, one per failed [StartChangeStream], and
    the counter ends at [b] plus their number, however many streams were
    opened and however many events were decoded in between. *)
Theorem X1_backoff_never_reset (done : bool) (t : targetEntry) (b : nat)
    (lastSeen : Z) (ms : list move) (c : config) (tr : list obs) :
  run (startWatchingEndpointsChanges done t b lastSeen) ms = Some (c, tr) ->
  sleeps tr = seq b (length (sleeps tr))
  /\ retryBackoff (w c) = (b + length (sleeps tr))%nat.
Proof.
  intros Hrun.
  refine (run_invariant (backoffCounts b) (backoffCounts_step b) ms _ [] c tr
                        _ Hrun).
  split; simpl; [reflexivity|lia].
Qed.

(** ** Calls, streams and closes *)

Lemma callsAccounted_step (c : config) (tr : list obs) (m : move)
    (c' : config) (o : list obs) :
  callsAccounted c tr -> exec c m = Some (c', o) ->
  callsAccounted c' (tr ++ o).
Proof.
  unfold callsAccounted. intros H Hm.
  rewrite startVersions_app, sleeps_app, !length_app.
  destruct m as [| |a| | | |g d|g];
    try (exec_cases Hm; rewrite ?length_insert; simpl; lia).
  - unfold exec, Duration in Hm. destruct (pc c); try discriminate.
    destruct a as [e|]; simplify_eq/=; rewrite ?length_app; simpl; lia.
Qed.

(** X2: in every run the number of calls of [StartChangeStream] is the
    number of backoff waits plus the number of streams handed to
    [proxyEvents]: each call either fails and is followed by exactly one
    wait, or opens exactly one stream with its decode task. *)
Theorem X2_calls_accounted (done : bool) (t : targetEntry) (b : nat)
    (lastSeen : Z) (ms : list move) (c : config) (tr : list obs) :
  run (startWatchingEndpointsChanges done t b lastSeen) ms = Some (c, tr) ->
  length (startVersions tr) = (length (sleeps tr) + length (tasks c))%nat.
Proof.
  intros Hrun.
  refine (run_invariant callsAccounted callsAccounted_step ms _ [] c tr
                        _ Hrun).
  reflexivity.
Qed.

Lemma closeCount_single (g g' : nat) :
  closeCount g' [OClose g] = if Nat.eqb g' g then 1%nat else 0%nat.
Proof. unfold closeCount. simpl. destruct (Nat.eqb g' g); reflexivity. Qed.

Lemma closedOnce_step (c : config) (tr : list obs) (m : move) (c' : config)
    (o : list obs) :
  closedOnce c tr -> exec c m = Some (c', o) -> closedOnce c' (tr ++ o).
Proof.
  unfold closedOnce. intros [Hsel Hcnt] Hm.
  assert (forall g, closeCount g (tr ++ []) = closeCount g tr) as Hnil
    by (intros g; rewrite app_nil_r; reflexivity).
  destruct m as [| |a| | | |g d|g].
  - exec_cases Hm. split; [exact Hsel|]. intros g.
    rewrite closeCount_app. simpl. rewrite Nat.add_0_r. apply Hcnt.
  - unfold exec in Hm. destruct (pc c) eqn:Hp; try discriminate.
    simplify_eq/=. split; [destruct (ctxDone c); discriminate|].
    intros g. rewrite Hnil, Hcnt. simpl.
    destruct (ctxDone c); reflexivity.
  - unfold exec, Duration in Hm. destruct (pc c) eqn:Hp; try discriminate.
    destruct a as [e|]; simplify_eq/=.
    + split; [discriminate|]. intros g. rewrite closeCount_app. simpl.
      rewrite Nat.add_0_r, Hcnt. reflexivity.
    + split; [intros g Hg; simplify_eq; rewrite length_app; simpl; lia|].
      intros g. rewrite closeCount_app. simpl.
      rewrite Nat.add_0_r, Hcnt, length_app. simpl.
      destruct (Nat.eqb_spec g (length (tasks c))) as [->|Hne].
      * rewrite andb_false_r.
        replace (length (tasks c) <? length (tasks c))%nat with false
          by (symmetry; apply Nat.ltb_ge; lia).
        reflexivity.
      * rewrite !andb_true_r.
        destruct (Nat.ltb_spec g (length (tasks c)));
          destruct (Nat.ltb_spec g (length (tasks c) + 1)); try lia;
          reflexivity.
  - unfold exec in Hm. destruct (pc c) eqn:Hp; try discriminate.
    destruct (ctxDone c); [|discriminate]. simplify_eq/=.
    split; [discriminate|]. intros g'.
    rewrite closeCount_app, Hcnt, closeCount_single.
    simpl. pose proof (Hsel _ eq_refl) as Hlt. apply Nat.ltb_lt in Hlt.
    destruct (Nat.eqb_spec g' g) as [->|Hne]; simpl.
    + rewrite Hlt. reflexivity.
    + rewrite Nat.add_0_r. reflexivity.
  - unfold exec in Hm. destruct (pc c) eqn:Hp; try discriminate.
    pose proof (Hsel _ eq_refl) as Hlt.
    assert (forall g', closeCount g' (tr ++ [OClose g]) =
                       if (g' <? length (tasks c))%nat then 1%nat else 0%nat)
      as Hnew.
    { intros g'. rewrite closeCount_app, Hcnt, closeCount_single. simpl.
      apply Nat.ltb_lt in Hlt.
      destruct (Nat.eqb_spec g' g) as [->|Hne]; simpl.
      - rewrite Hlt. reflexivity.
      - rewrite andb_true_r, Nat.add_0_r. reflexivity. }
    destruct (tasks c !! g) as [t|]; [|discriminate].
    destruct (todo t) as [|[e|r] rest]; [destruct (ctl t)| |];
      try discriminate; simplify_eq/=;
      (split; [discriminate|]); intros g';
      rewrite Hnew, ?length_insert, andb_true_r; reflexivity.
  - unfold exec in Hm. destruct (pc c) as [| | |e|] eqn:Hp; try discriminate.
    destruct (ctxDone c); [|destruct e]; simplify_eq/=;
      (split; [discriminate|]); intros g;
      rewrite closeCount_app, Hcnt; simpl; rewrite Nat.add_0_r; reflexivity.
  - unfold exec in Hm.
    destruct (tasks c !! g) as [t|]; [|discriminate].
    destruct (todo t), (ctl t); try discriminate.
    destruct (decodeIteration _ _ d) as [[rv sends] k]. simplify_eq/=.
    rewrite length_insert. split; [exact Hsel|].
    intros g'. rewrite Hnil. apply Hcnt.
  - exec_cases Hm. rewrite length_insert. split; [exact Hsel|].
    intros g'. rewrite closeCount_app. simpl. rewrite Nat.add_0_r. apply Hcnt.
Qed.

Lemma closesOn_app (handleOf : nat -> nat) (h : nat) (tr o : list obs) :
  closesOn handleOf h (tr ++ o) =
  (closesOn handleOf h tr + closesOn handleOf h o)%nat.
Proof. unfold closesOn. rewrite omap_app, length_app. reflexivity. Qed.

Lemma returnedWith_ext (handleOf : nat -> nat) (h : nat) (p p' : watchPc)
    (n : nat) :
  (forall g, (g < n)%nat -> selecting p g = selecting p' g) ->
  returnedWith handleOf h p n = returnedWith handleOf h p' n.
Proof.
  induction n as [|n IH]; intros Hsel; [reflexivity|].
  simpl. rewrite IH by (intros g Hg; apply Hsel; lia).
  rewrite (Hsel n) by lia. reflexivity.
Qed.

Lemma returnedWith_leave (handleOf : nat -> nat) (h : nat) (p' : watchPc)
    (g0 n : nat) :
  (g0 < n)%nat -> (forall g, selecting p' g = false) ->
  returnedWith handleOf h p' n =
  (returnedWith handleOf h (AtSelect g0) n
   + if Nat.eqb (handleOf g0) h then 1 else 0)%nat.
Proof.
  intros Hlt Hp'. induction n as [|n IH]; [lia|].
  simpl. rewrite Hp'. simpl.
  destruct (Nat.eqb_spec n g0) as [->|Hne].
  - rewrite andb_false_r, Nat.add_0_r.
    rewrite (returnedWith_ext handleOf h p' (AtSelect g0) g0).
    + rewrite andb_true_r. reflexivity.
    + intros g Hg. rewrite Hp'. simpl. symmetry. apply Nat.eqb_neq. lia.
  - rewrite IH by lia. rewrite !andb_true_r. lia.
Qed.

Lemma closedPerObject_step (handleOf : nat -> nat) (h : nat) (c : config)
    (tr : list obs) (m : move) (c' : config) (o : list obs) :
  closedPerObject handleOf h c tr -> exec c m = Some (c', o) ->
  closedPerObject handleOf h c' (tr ++ o).
Proof.
  unfold closedPerObject. intros [Hsel Hcnt] Hm. rewrite closesOn_app.
  destruct m as [| |a| | | |g d|g]; unfold exec in Hm.
  - injection Hm as <- <-. simpl. split; [exact Hsel|].
    rewrite Hcnt. unfold closesOn. simpl. lia.
  - destruct (pc c) eqn:Hp; try discriminate. injection Hm as <- <-.
    simpl. split; [destruct (ctxDone c); discriminate|].
    rewrite Hcnt. unfold closesOn. simpl. rewrite Nat.add_0_r.
    apply returnedWith_ext. intros g _. destruct (ctxDone c); reflexivity.
  - unfold Duration in Hm. destruct (pc c) eqn:Hp; try discriminate.
    destruct a as [e|]; injection Hm as <- <-; simpl.
    + split; [discriminate|]. rewrite Hcnt. unfold closesOn. simpl.
      rewrite Nat.add_0_r. apply returnedWith_ext. reflexivity.
    + split; [intros g Hg; injection Hg as <-; rewrite length_app; simpl; lia|].
      rewrite Hcnt, length_app. unfold closesOn. simpl.
      rewrite Nat.add_0_r, Nat.add_1_r. simpl.
      rewrite Nat.eqb_refl, andb_false_r, Nat.add_0_r.
      apply returnedWith_ext. intros g Hg. simpl.
      symmetry. apply Nat.eqb_neq. lia.
  - destruct (pc c) eqn:Hp; try discriminate.
    destruct (ctxDone c); [|discriminate]. injection Hm as <- <-. simpl.
    split; [discriminate|]. rewrite Hcnt.
    match goal with
    | |- _ = returnedWith _ _ ?p' _ =>
        rewrite (returnedWith_leave handleOf h p' g (length (tasks c))
                   (Hsel _ eq_refl) (fun _ => eq_refl))
    end.
    unfold closesOn. simpl. destruct (Nat.eqb (handleOf g) h); reflexivity.
  - destruct (pc c) eqn:Hp; try discriminate.
    pose proof (Hsel _ eq_refl) as Hlt.
    destruct (tasks c !! g) as [t|]; [|discriminate].
    destruct (todo t) as [|[e|r] rest]; [destruct (ctl t)| |];
      try discriminate; injection Hm as <- <-; simpl;
      (split; [discriminate|]); rewrite Hcnt, ?length_insert;
      match goal with
      | |- _ = returnedWith _ _ ?p' _ =>
          rewrite (returnedWith_leave handleOf h p' g (length (tasks c))
                     Hlt (fun _ => eq_refl))
      end;
      unfold closesOn; simpl; destruct (Nat.eqb (handleOf g) h); reflexivity.
  - destruct (pc c) as [| | |e|] eqn:Hp; try discriminate.
    destruct (ctxDone c); [|destruct e]; injection Hm as <- <-; simpl;
      (split; [discriminate|]); rewrite Hcnt; unfold closesOn; simpl;
      rewrite Nat.add_0_r; apply returnedWith_ext; reflexivity.
  - destruct (tasks c !! g) as [t|]; [|discriminate].
    destruct (todo t), (ctl t); try discriminate.
    destruct (decodeIteration _ _ d) as [[rv sends] k].
    injection Hm as <- <-. simpl. rewrite length_insert.
    split; [exact Hsel|]. rewrite Hcnt. unfold closesOn. simpl. lia.
  - destruct (tasks c !! g) as [t|]; [|discriminate].
    destruct (todo t) as [|[e|r] rest]; try discriminate.
    injection Hm as <- <-. simpl. rewrite length_insert.
    split; [exact Hsel|]. rewrite Hcnt. unfold closesOn. simpl. lia.
Qed.

(** X3: [Close()] is called once per invocation of [proxyEvents], when it
    returns and not before.  In every run, invocation [g] (the one given the
    stream of the [g]-th successful [StartChangeStream]) has called
    [Close()] once if [watch] has left it and not at all if [watch] is still
    waiting in it; there is no such call for an invocation that never took
    place.  So, however the client identifies the objects it hands out, a
    stream object has been closed exactly as many times as invocations that
    were given it have returned: once when the client hands out a fresh
    object each time, once per reconnect when it hands out the same object
    again, as the mock of the test does. *)
Theorem X3_closed_once_per_invocation (done : bool) (t : targetEntry)
    (b : nat) (lastSeen : Z) (ms : list move) (c : config) (tr : list obs) :
  run (startWatchingEndpointsChanges done t b lastSeen) ms = Some (c, tr) ->
  (forall g,
      closeCount g tr =
      if (g <? streamsOpened ms)%nat && negb (selecting (pc c) g)
      then 1%nat else 0%nat)
  /\ (forall (handleOf : nat -> nat) (h : nat),
      closesOn handleOf h tr =
      returnedWith handleOf h (pc c) (streamsOpened ms)).
Proof.
  intros Hrun.
  pose proof (run_streams _ _ _ _ Hrun) as Hlen. simpl in Hlen.
  rewrite <- Hlen. split.
  - intros g.
    refine (proj2 (run_invariant closedOnce closedOnce_step ms _ [] c tr
                                 _ Hrun) g).
    split; [discriminate|]. intros g'. reflexivity.
  - intros handleOf h.
    refine (proj2 (run_invariant (closedPerObject handleOf h)
                     (closedPerObject_step handleOf h) ms _ [] c tr _ Hrun)).
    split; [discriminate|]. reflexivity.
Qed.

(** ** At most one decode task reads *)

Lemma oneReader_step (c : config) (m : move) (c' : config) (o : list obs) :
  oneReader c -> exec c m = Some (c', o) -> oneReader c'.
Proof.
  unfold oneReader, readersWithin. intros (Hwf & g0 & Hone & Hpc) Hm.
  destruct m as [| |a| | | |g d|g].
  - unfold exec in Hm. simplify_eq/=.
    split; [exact Hwf|]. exists g0. split; [exact Hone|].
    destruct (pc c); try exact Hpc. intros Hf. discriminate Hf.
  - unfold exec in Hm. destruct (pc c) eqn:Hp; try discriminate.
    simplify_eq/=. split; [exact Hwf|]. exists g0. split; [exact Hone|].
    destruct (ctxDone c); [exact I|exact Hpc].
  - unfold exec, Duration in Hm. destruct (pc c) eqn:Hp; try discriminate.
    destruct a as [e|]; simplify_eq/=.
    + split; [exact Hwf|]. exists g0. split; [exact Hone|exact Hpc].
    + split.
      * intros g t Hl. apply lookup_app_Some in Hl as [Hl|[_ Hl]]; [eauto|].
        apply list_lookup_singleton_Some in Hl as [_ <-].
        split; [discriminate|intros e []].
      * exists (length (tasks c)). split; [|reflexivity].
        intros g t Hl Hk.
        apply lookup_app_Some in Hl as [Hl|[Hge Hl]];
          [destruct (Hpc _ _ Hl Hk)|].
        apply list_lookup_singleton_Some in Hl as [Hz _]. lia.
  - unfold exec in Hm. destruct (pc c) eqn:Hp; try discriminate.
    destruct (ctxDone c) eqn:Hctx; [|discriminate].
    injection Hm as <- <-. simpl.
    split; [exact Hwf|]. exists g0. split; [exact Hone|].
    intros Hf. congruence.
  - unfold exec in Hm. destruct (pc c) eqn:Hp; try discriminate.
    destruct (tasks c !! g) as [t|] eqn:Hl; [|discriminate].
    pose proof (Hwf _ _ Hl) as Hwft. rewrite <- (task_eta t) in Hwft.
    destruct (todo t) as [|[e|r] rest] eqn:Htodo.
    + destruct (ctl t) eqn:Hk; simplify_eq/=.
      split; [exact Hwf|]. exists g. split; [exact Hone|].
      intros _ g' t' Hl' Hk'. pose proof (Hone _ _ Hl' Hk') as <-.
      congruence.
    + assert (ctl t = Return) as Hk
        by (apply (proj2 Hwft e); left; reflexivity).
      simplify_eq/=. split.
      * intros g' t' Hl'.
        apply list_lookup_insert_Some in Hl' as [(-> & <- & _)|[_ Hl']];
          [|eauto].
        apply (taskWf_tail _ _ _ Hwft).
      * exists g.
        assert (forall g' t',
                   <[g := {| todo := rest; ctl := ctl t |}]> (tasks c) !! g'
                   = Some t' -> ctl t' = Continue -> False) as Hnone.
        { intros g' t' Hl' Hk'.
          apply list_lookup_insert_Some in Hl' as [(-> & <- & _)|[Hne Hl']].
          - simpl in Hk'. congruence.
          - apply Hne. exact (Hone _ _ Hl' Hk'). }
        split; [intros g' t' Hl' Hk'; destruct (Hnone _ _ Hl' Hk')|].
        intros _. exact Hnone.
    + destruct (ctl t); discriminate.
  - unfold exec in Hm. destruct (pc c) as [| | |e|] eqn:Hp; try discriminate.
    destruct (ctxDone c) eqn:Hctx; simplify_eq/=.
    + split; [exact Hwf|]. exists g0. split; [exact Hone|exact I].
    + split; [exact Hwf|]. exists g0. split; [exact Hone|].
      apply Hpc. reflexivity.
  - unfold exec in Hm.
    destruct (tasks c !! g) as [t|] eqn:Hl; [|discriminate].
    destruct (todo t) eqn:Htodo; [|discriminate].
    destruct (ctl t) eqn:Hk; [|discriminate].
    destruct (decodeIteration _ _ d) as [[rv sends] k] eqn:Hit.
    apply decodeIteration_resume in Hit as [_ Hwf'].
    simplify_eq/=. pose proof (Hone _ _ Hl Hk) as <-. split.
    + intros g' t' Hl'.
      apply list_lookup_insert_Some in Hl' as [(-> & <- & _)|[_ Hl']];
        [exact Hwf'|eauto].
    + exists g0.
      assert (forall g' t',
                 <[g0 := {| todo := sends; ctl := k |}]> (tasks c) !! g'
                 = Some t' -> ctl t' = Continue -> g0 = g') as Hone'.
      { intros g' t' Hl' Hk'.
        apply list_lookup_insert_Some in Hl' as [(-> & _)|[_ Hl']];
          [reflexivity|eauto]. }
      split; [exact Hone'|].
      destruct (pc c); try exact Hpc; try exact I;
        try (destruct (Hpc _ _ Hl Hk)).
      intros Hf. destruct (Hpc Hf _ _ Hl Hk).
  - unfold exec in Hm.
    destruct (tasks c !! g) as [t|] eqn:Hl; [|discriminate].
    destruct (todo t) as [|[e|r] rest] eqn:Htodo; try discriminate.
    simplify_eq/=.
    pose proof (Hwf _ _ Hl) as Hwft. rewrite <- (task_eta t), Htodo in Hwft.
    assert (forall (P : nat -> Prop),
               (forall g' t', tasks c !! g' = Some t' -> ctl t' = Continue -> P g') ->
               forall g' t',
                 <[g := {| todo := rest; ctl := ctl t |}]> (tasks c) !! g'
                 = Some t' -> ctl t' = Continue -> P g') as Hkeep.
    { intros P HP g' t' Hl' Hk'.
      apply list_lookup_insert_Some in Hl' as [(-> & <- & _)|[_ Hl']];
        [exact (HP _ _ Hl Hk')|eauto]. }
    split.
    + intros g' t' Hl'.
      apply list_lookup_insert_Some in Hl' as [(-> & <- & _)|[_ Hl']];
        [|eauto].
      apply (taskWf_tail _ _ _ Hwft).
    + exists g0. split; [apply Hkeep, Hone|].
      destruct (pc c); try exact Hpc; try exact I; try (apply Hkeep, Hpc).
      intros Hf. apply Hkeep, Hpc, Hf.
Qed.

(** X4: in every run at most one decode task is still in its read loop, so
    at most one goroutine can write [lastSeenResourceVersion]; and when
    [watch] is about to call [StartChangeStream] no decode task of an earlier
    stream is still in its read loop. *)
Theorem X4_single_reader (done : bool) (t : targetEntry) (b : nat)
    (lastSeen : Z) (ms : list move) (c : config) (tr : list obs) :
  run (startWatchingEndpointsChanges done t b lastSeen) ms = Some (c, tr) ->
  (forall g1 g2 t1 t2,
      tasks c !! g1 = Some t1 -> tasks c !! g2 = Some t2 ->
      ctl t1 = Continue -> ctl t2 = Continue -> g1 = g2)
  /\ (pc c = AtStart -> forall g t', tasks c !! g = Some t' -> ctl t' = Return).
Proof.
  intros Hrun.
  assert (oneReader c) as (_ & g0 & Hone & Hpc).
  { refine (run_invariant (fun c _ => oneReader c)
              (fun c tr m c' o H => oneReader_step c m c' o H) ms _ [] c tr
              _ Hrun).
    split; [intros g t' Hl; destruct g; discriminate Hl|].
    exists 0%nat. split; intros g t' Hl; destruct g; discriminate Hl. }
  split.
  - intros g1 g2 t1 t2 H1 H2 K1 K2.
    rewrite <- (Hone _ _ H1 K1). exact (Hone _ _ H2 K2).
  - intros Hp g t' Hl. rewrite Hp in Hpc.
    destruct (ctl t') eqn:Hk; [|reflexivity].
    destruct (Hpc _ _ Hl Hk).
Qed.

(** ** Leaving the reconnect loop *)

Lemma exited_cancelled_step (c : config) (tr : list obs) (m : move)
    (c' : config) (o : list obs) :
  (pc c = Exited -> ctxDone c = true) -> exec c m = Some (c', o) ->
  pc c' = Exited -> ctxDone c' = true.
Proof.
  intros H Hm He. destruct m as [| |a| | | |g d|g]; unfold exec in Hm.
  - injection Hm as <- <-. reflexivity.
  - destruct (pc c); try discriminate.
    destruct (ctxDone c) eqn:Hctx; injection Hm as <- <-;
      [exact Hctx|discriminate He].
  - unfold Duration in Hm. destruct (pc c); try discriminate.
    destruct a; injection Hm as <- <-; discriminate He.
  - destruct (pc c); try discriminate.
    destruct (ctxDone c); [|discriminate]. injection Hm as <- <-.
    discriminate He.
  - destruct (pc c); try discriminate.
    destruct (tasks c !! g) as [t|]; [|discriminate].
    destruct (todo t) as [|[e|r] rest]; [destruct (ctl t)| |];
      try discriminate; injection Hm as <- <-; discriminate He.
  - destruct (pc c); try discriminate.
    destruct (ctxDone c) eqn:Hctx; injection Hm as <- <-;
      [exact Hctx|discriminate He].
  - destruct (tasks c !! g) as [t|]; [|discriminate].
    destruct (todo t), (ctl t); try discriminate.
    destruct (decodeIteration _ _ d) as [[rv sends] k].
    injection Hm as <- <-. exact (H He).
  - destruct (tasks c !! g) as [t|]; [|discriminate].
    destruct (todo t) as [|[e|r] rest]; try discriminate.
    injection Hm as <- <-. exact (H He).
Qed.

(** X5: [watch] returns only on cancellation.  In every run, if the
    goroutine of [watch] has exited then the context is cancelled: neither
    failed calls of [StartChangeStream], however many, nor stream errors make
    the watcher give up. *)
Theorem X5_exits_only_when_cancelled (done : bool) (t : targetEntry)
    (b : nat) (lastSeen : Z) (ms : list move) (c : config) (tr : list obs) :
  run (startWatchingEndpointsChanges done t b lastSeen) ms = Some (c, tr) ->
  pc c = Exited -> ctxDone c = true.
Proof.
  intros Hrun.
  refine (run_invariant (fun c _ => pc c = Exited -> ctxDone c = true)
            exited_cancelled_step ms _ [] c tr _ Hrun).
  discriminate.
Qed.

Lemma idle_step (sw : streamWatcher) (c : config) (tr : list obs) (m : move)
    (c' : config) (o : list obs) :
  idle sw c tr -> exec c m = Some (c', o) -> idle sw c' (tr ++ o).
Proof.
  unfold idle.
  intros (Hctx & Hp & Hts & Hw & Hst & Hem & Hsl & Hcl) Hm.
  rewrite startVersions_app, emitted_app, sleeps_app, Hst, Hem, Hsl.
  assert (forall g o', closeCount g o' = 0%nat ->
                       closeCount g (tr ++ o') = 0%nat) as Hcl'
    by (intros g o' Ho; rewrite closeCount_app, Hcl, Ho; reflexivity).
  destruct m as [| |a| | | |g d|g]; unfold exec in Hm.
  - simplify_eq/=. repeat split; auto.
  - destruct Hp as [Hp|Hp]; rewrite Hp in Hm; [|discriminate].
    rewrite Hctx in Hm. simplify_eq/=. repeat split; auto.
  - destruct Hp as [Hp|Hp]; rewrite Hp in Hm; discriminate.
  - destruct Hp as [Hp|Hp]; rewrite Hp in Hm; discriminate.
  - destruct Hp as [Hp|Hp]; rewrite Hp in Hm; discriminate.
  - destruct Hp as [Hp|Hp]; rewrite Hp in Hm; discriminate.
  - rewrite Hts in Hm. destruct g; discriminate.
  - rewrite Hts in Hm. destruct g; discriminate.
Qed.

(** X6: a watcher started on a context that is already cancelled does
    nothing.  In every run it never calls [StartChangeStream], opens no
    stream, starts no decode task, sends nothing on the output queue, never
    waits on the backoff, and its fields stay as they were given. *)
Theorem X6_started_cancelled_does_nothing (t : targetEntry) (b : nat)
    (lastSeen : Z) (ms : list move) (c : config) (tr : list obs) :
  run (startWatchingEndpointsChanges true t b lastSeen) ms = Some (c, tr) ->
  startVersions tr = [] /\ emitted tr = [] /\ sleeps tr = []
  /\ tasks c = []
  /\ w c = {| target := t; retryBackoff := b;
              lastSeenResourceVersion := lastSeen |}.
Proof.
  intros Hrun.
  set (sw := {| target := t; retryBackoff := b;
                lastSeenResourceVersion := lastSeen |}).
  pose proof (run_invariant (idle sw) (idle_step sw) ms
                (startWatchingEndpointsChanges true t b lastSeen) [] c tr)
    as Hinv.
  destruct Hinv as (_ & _ & Hts & Hw & Hst & Hem & Hsl & _);
    [|exact Hrun|auto].
  unfold idle. simpl. repeat split; auto.
Qed.

(** ** A decode task left behind *)

Lemma exitedWith_step (g : nat) (e : error) (rest : list send) (k : loopCtl)
    (c : config) (tr : list obs) (m : move) (c' : config) (o : list obs) :
  exitedWith g {| todo := SendConnErr e :: rest; ctl := k |} c tr ->
  exec c m = Some (c', o) ->
  exitedWith g {| todo := SendConnErr e :: rest; ctl := k |} c' (tr ++ o).
Proof.
  unfold exitedWith. intros [Hp Hl] Hm.
  destruct m as [| |a| | | |g' d|g']; unfold exec in Hm;
    try (rewrite Hp in Hm; discriminate).
  - simplify_eq/=. split; assumption.
  - destruct (tasks c !! g') as [t|] eqn:Hl'; [|discriminate].
    destruct (todo t) eqn:Htodo; [|discriminate].
    destruct (ctl t); [|discriminate].
    destruct (decodeIteration _ _ d) as [[rv sends] k']. simplify_eq/=.
    split; [exact Hp|]. rewrite list_lookup_insert_ne; [exact Hl|].
    intros ->. rewrite Hl in Hl'. simplify_eq/=.
  - destruct (tasks c !! g') as [t|] eqn:Hl'; [|discriminate].
    destruct (todo t) as [|[e'|r] rest'] eqn:Htodo; try discriminate.
    simplify_eq/=.
    split; [exact Hp|]. rewrite list_lookup_insert_ne; [exact Hl|].
    intros ->. rewrite Hl in Hl'. simplify_eq/=.
Qed.

(** X10: a decode task can be left blocked for good.  Once [watch] has
    exited, a decode task that is waiting to hand its error to [proxyEvents]
    on [connectionErrCh] stays exactly as it is in every continuation: nobody
    receives from that channel any more, so the task never returns and the
    result queued behind the error is never sent. *)
Theorem X10_task_blocked_after_exit (c : config) (g : nat) (e : error)
    (rest : list send) (k : loopCtl) (ms : list move) (c' : config)
    (tr : list obs) :
  pc c = Exited ->
  tasks c !! g = Some {| todo := SendConnErr e :: rest; ctl := k |} ->
  run c ms = Some (c', tr) ->
  pc c' = Exited
  /\ tasks c' !! g = Some {| todo := SendConnErr e :: rest; ctl := k |}.
Proof.
  intros Hp Hl Hrun.
  exact (run_invariant (exitedWith g _) (exitedWith_step g e rest k) ms c []
           c' tr (conj Hp Hl) Hrun).
Qed.

(** ** A sequence of events on one connection *)

Lemma decodeIteration_event (ce : option error) (v : Z) (got : event) :
  decodeIteration ce v (inr got) =
  (default v (parsedVersion (resultOf got)), [SendEvent (resultOf got)],
   Continue).
Proof.
  unfold decodeIteration, resultOf, parsedVersion.
  destruct (isWatchType (Type_ got)); [|reflexivity].
  destruct (Atoi _) as [rv [e|]] eqn:Hat; simpl; [reflexivity|].
  rewrite Hat. reflexivity.
Qed.

(** X8: on one connection the results come out one per decoded event, in the
    order of the stream, whatever the events are (known type or not,
    resourceVersion parsable or not), and the connection is kept: after the
    events [evs] have been decoded and their results received, the trace is
    the list of their results in order, the task is reading the same stream
    again, the reconnect loop has not moved, and [lastSeenResourceVersion] is
    the resource version of the last event that parsed, if any. *)
Theorem X8_events_in_order (evs : list event) (c : config) (g : nat) :
  tasks c !! g = Some reading ->
  run c (eventsSchedule g evs) =
  Some ({| ctxDone := ctxDone c;
           w := setLastSeen (w c)
                  (lastParsed (lastSeenResourceVersion (w c))
                              (map resultOf evs));
           pc := pc c; tasks := tasks c |},
        map (fun ev => OEmit (resultOf ev)) evs).
Proof.
  revert c. induction evs as [|ev evs IH]; intros c Hg.
  - simpl. rewrite setLastSeen_same, config_eta. reflexivity.
  - change (eventsSchedule g (ev :: evs))
      with ([MDecode g (inr ev); MDeliver g] ++ eventsSchedule g evs).
    rewrite run_app, (run_decode_event c g ev Hg), decodeIteration_event.
    rewrite IH by exact Hg. simpl. reflexivity.
Qed.

(** ** The range of the last seen resource version *)

Lemma parseUintLoop_nonneg (s : string) (n un : Z) :
  0 <= n -> parseUintLoop s n = (un, None) -> 0 <= un.
Proof.
  revert n. induction s as [|ch s IH]; intros n Hn H; simpl in H.
  - injection H as <-. exact Hn.
  - destruct (negb (isDigit ch)); [discriminate|].
    destruct (n >=? maxUint64 / 10 + 1); [discriminate|].
    destruct ((_ <? _) || (_ >? _)); [discriminate|].
    eapply IH; [|exact H]. apply Z.mod_pos_bound. reflexivity.
Qed.

Lemma Atoi_range (s : string) (z : Z) : Atoi s = (z, None) -> inIntRange z.
Proof.
  unfold Atoi, inIntRange. destruct s as [|ch s]; [discriminate|].
  cbv zeta.
  match goal with |- context [ParseUint ?d] => generalize d end.
  intros digits.
  destruct (ParseUint digits) as [un [k|]] eqn:Hp.
  - destruct k; [discriminate|].
    unfold ParseUint in Hp.
    assert (un = maxUint64) as ->.
    { destruct digits; [discriminate|].
      clear -Hp. revert Hp. generalize 0. generalize (String a digits).
      induction s as [|c' s IH]; intros n H; simpl in H; [discriminate|].
      destruct (negb (isDigit c')); [discriminate|].
      destruct (n >=? maxUint64 / 10 + 1); [injection H as <-; reflexivity|].
      destruct ((_ <? _) || (_ >? _)); [injection H as <-; reflexivity|].
      exact (IH _ H). }
    unfold maxUint64.
    destruct (Ascii.eqb ch "-"); simpl; intros H; discriminate H.
  - assert (0 <= un) as Hun.
    { unfold ParseUint in Hp. destruct digits; [discriminate|].
      eapply parseUintLoop_nonneg; [|exact Hp]. lia. }
    destruct (Ascii.eqb ch "-"); simpl.
    + destruct (un >? 2 ^ 63) eqn:Hc; [discriminate|].
      intros H. injection H as <-. lia.
    + destruct (un >=? 2 ^ 63) eqn:Hc; [discriminate|].
      intros H. injection H as <-. lia.
Qed.

Lemma versionOf_range (m : move) (rv : Z) :
  versionOf m = Some rv -> inIntRange rv.
Proof.
  destruct m as [| |a| | | |g [e|got]|g]; simpl; try discriminate.
  destruct (isWatchType (Type_ got)); [|discriminate].
  destruct (Atoi _) as [z [e|]] eqn:Hat; [discriminate|].
  intros H. injection H as <-. exact (Atoi_range _ _ Hat).
Qed.

(** X9: [lastSeenResourceVersion] never leaves the range of a 64-bit [int].
    In every run of a watcher started with a value in that range the value
    stays in it: a resourceVersion that does not fit makes [strconv.Atoi]
    fail with a range error and is not stored, so the unbounded integer of
    the embedding never stands for a wrapped-around [int]. *)
Theorem X9_last_seen_in_int_range (done : bool) (t : targetEntry) (b : nat)
    (lastSeen : Z) (ms : list move) (c : config) (tr : list obs) :
  inIntRange lastSeen ->
  run (startWatchingEndpointsChanges done t b lastSeen) ms = Some (c, tr) ->
  inIntRange (lastSeenResourceVersion (w c)).
Proof.
  intros Hr Hrun.
  refine (run_invariant
            (fun c _ => inIntRange (lastSeenResourceVersion (w c)))
            _ ms (startWatchingEndpointsChanges done t b lastSeen) [] c tr
            Hr Hrun).
  intros c0 tr0 m c1 o H Hm. rewrite (exec_lastSeen _ _ _ _ Hm).
  destruct (versionOf m) as [rv|] eqn:Hv; simpl; [|exact H].
  exact (versionOf_range _ _ Hv).
Qed.

(** ** Results and decoded documents *)

Lemma pendingCount_cons (t : decodeTask) (ts : list decodeTask) :
  pendingCount (t :: ts) =
  (length (pendingResults (todo t)) + pendingCount ts)%nat.
Proof. unfold pendingCount. simpl. apply length_app. Qed.

Lemma pendingCount_snoc (ts : list decodeTask) (t : decodeTask) :
  pendingCount (ts ++ [t]) =
  (pendingCount ts + length (pendingResults (todo t)))%nat.
Proof.
  induction ts as [|t0 ts IH]; simpl.
  - rewrite pendingCount_cons. unfold pendingCount. simpl. lia.
  - rewrite !pendingCount_cons, IH. lia.
Qed.

Lemma pendingCount_insert (ts : list decodeTask) (g : nat) (t t' : decodeTask) :
  ts !! g = Some t ->
  (pendingCount (<[g := t']> ts) + length (pendingResults (todo t)) =
   pendingCount ts + length (pendingResults (todo t')))%nat.
Proof.
  revert g. induction ts as [|t0 ts IH]; intros g Hl; [destruct g; discriminate|].
  destruct g as [|g]; simpl in *.
  - injection Hl as ->. rewrite !pendingCount_cons. lia.
  - rewrite !pendingCount_cons. specialize (IH g Hl). lia.
Qed.

Lemma exec_results (c : config) (m : move) (c' : config) (o : list obs) :
  exec c m = Some (c', o) ->
  exists n : nat,
    (length (emitted o) + pendingCount (tasks c') =
     pendingCount (tasks c) + n)%nat
    /\ (decodedEvents [m] <= n <= decodes [m])%nat.
Proof.
  intros Hm. destruct m as [| |a| | | |g d|g]; unfold exec in Hm.
  - injection Hm as <- <-. exists 0%nat. simpl. split; [lia|].
    unfold decodedEvents, decodes. simpl. lia.
  - destruct (pc c); try discriminate. injection Hm as <- <-.
    exists 0%nat. simpl. split; [lia|]. unfold decodedEvents, decodes. simpl. lia.
  - unfold Duration in Hm. destruct (pc c); try discriminate.
    destruct a; injection Hm as <- <-; exists 0%nat; simpl;
      rewrite ?pendingCount_snoc; simpl;
      (split; [lia|]); unfold decodedEvents, decodes; simpl; lia.
  - destruct (pc c); try discriminate. destruct (ctxDone c); [|discriminate].
    injection Hm as <- <-. exists 0%nat. simpl. split; [lia|].
    unfold decodedEvents, decodes. simpl. lia.
  - destruct (pc c); try discriminate.
    destruct (tasks c !! g) as [t|] eqn:Hl; [|discriminate].
    destruct (todo t) as [|[e|r] rest] eqn:Htodo; [destruct (ctl t)| |];
      try discriminate; injection Hm as <- <-; exists 0%nat; simpl;
      (split; [|unfold decodedEvents, decodes; simpl; lia]); [lia|].
    pose proof (pendingCount_insert _ _ _ {| todo := rest; ctl := ctl t |} Hl)
      as Hins.
    rewrite Htodo in Hins. simpl in Hins. lia.
  - destruct (pc c); try discriminate.
    destruct (ctxDone c); injection Hm as <- <-; exists 0%nat;
      (split; [|unfold decodedEvents, decodes; simpl; lia]).
    + simpl. lia.
    + destruct e; simpl; lia.
  - destruct (tasks c !! g) as [t|] eqn:Hl; [|discriminate].
    destruct (todo t) eqn:Htodo; [|discriminate].
    destruct (ctl t); [|discriminate].
    destruct (decodeIteration _ _ d) as [[rv sends] k] eqn:Hit.
    injection Hm as <- <-. simpl.
    pose proof (pendingCount_insert _ _ _ {| todo := sends; ctl := k |} Hl)
      as Hins.
    rewrite Htodo in Hins. simpl in Hins.
    exists (length (pendingResults sends)). split; [lia|].
    unfold decodeIteration in Hit. unfold decodedEvents, decodes.
    destruct d as [e|got]; simpl.
    + destruct (ctxErr c); [|destruct e]; injection Hit as <- <- <-;
        simpl; lia.
    + destruct (isWatchType (Type_ got));
        [destruct (Atoi _) as [z [e|]]|]; injection Hit as <- <- <-;
        simpl; lia.
  - destruct (tasks c !! g) as [t|] eqn:Hl; [|discriminate].
    destruct (todo t) as [|[e|r] rest] eqn:Htodo; try discriminate.
    injection Hm as <- <-. simpl.
    pose proof (pendingCount_insert _ _ _ {| todo := rest; ctl := ctl t |} Hl)
      as Hins.
    rewrite Htodo in Hins. simpl in Hins.
    exists 0%nat. split; [lia|]. unfold decodedEvents, decodes. simpl. lia.
Qed.

Lemma run_results (ms : list move) (c c' : config) (tr : list obs) :
  run c ms = Some (c', tr) ->
  (pendingCount (tasks c) + decodedEvents ms
   <= length (emitted tr) + pendingCount (tasks c')
   <= pendingCount (tasks c) + decodes ms)%nat.
Proof.
  revert c tr. induction ms as [|m ms IH]; intros c tr Hrun; simpl in Hrun.
  - injection Hrun as <- <-. unfold decodedEvents, decodes. simpl. lia.
  - destruct (exec c m) as [[c1 o]|] eqn:Hm; [|discriminate].
    destruct (run c1 ms) as [[c2 tr2]|] eqn:Hms; [|discriminate].
    injection Hrun as <- <-.
    destruct (exec_results _ _ _ _ Hm) as (n & Hn & Hb).
    specialize (IH _ _ Hms). rewrite emitted_app, length_app.
    change (m :: ms) with ([m] ++ ms).
    unfold decodedEvents, decodes in *. rewrite !omap_app, !length_app. lia.
Qed.

(** X7: no result is made up and no decoded event is lost.  In every run,
    the results already sent on the output queue together with those a decode
    task is still waiting to send are at least as many as the documents
    [Decode] has returned and at most as many as the returns of [Decode],
    failures included: every decoded document gets exactly one result and a
    failed [Decode] at most one. *)
Theorem X7_one_result_per_decode (done : bool) (t : targetEntry) (b : nat)
    (lastSeen : Z) (ms : list move) (c : config) (tr : list obs) :
  run (startWatchingEndpointsChanges done t b lastSeen) ms = Some (c, tr) ->
  (decodedEvents ms <= length (emitted tr) + pendingCount (tasks c)
   <= decodes ms)%nat.
Proof.
  intros Hrun. pose proof (run_results _ _ _ _ Hrun) as H.
  change (pendingCount (tasks (startWatchingEndpointsChanges done t b lastSeen)))
    with 0%nat in H.
  lia.
Qed.

(** * The constructor from flags *)

(** All the ways through [NewFromFlags]. *)
Ltac flags_cases H :=
  unfold NewFromFlags, bind, perform, ret, fail in H;
  repeat case_match; simplify_eq/=.

Example NewFromFlags_in_pod :
  NewFromFlags testWorld testFlags =
  (inr {| argURL := "https://10.0.0.1:443";
          argSource := Direct "kube_api" "/var/run/token";
          argTLS := {| InsecureSkipVerify := false; MinVersion := 769;
                       RootCAs := Some ["/var/run/ca.crt"%string] |} |},
   [CallParse "https://10.0.0.1:443"; CallReadFile "/var/run/ca.crt";
    CallReadFile "/var/run/token"]).
Proof. reflexivity. Qed.

Example NewFromFlags_with_user :
  NewFromFlags testWorld userFlags =
  (inr {| argURL := "https://10.0.0.1:443";
          argSource := KubeConfig "admin";
          argTLS := {| InsecureSkipVerify := true; MinVersion := 0;
                       RootCAs := None |} |},
   [CallParse "https://10.0.0.1:443"; CallK8sAuth "kube_api" "" "admin"]).
Proof. reflexivity. Qed.

Example defaultKubeURL_ipv6 :
  defaultKubeURL "fd00::1" "443" = "https://[fd00::1]:443".
Proof. reflexivity. Qed.

Lemma append_colon_nonempty (s p : string) :
  (s ++ String ":" p)%string <> "".
Proof. destruct s; discriminate. Qed.

Lemma JoinHostPort_colon (host port : string) :
  JoinHostPort host port = ":" -> host = "" /\ port = "".
Proof.
  unfold JoinHostPort. destruct (hasColon host) eqn:Hc; [discriminate|].
  destruct host as [|ch host]; simpl.
  - intros H. injection H as ->. split; reflexivity.
  - intros H. injection H as -> H. simpl in Hc. discriminate Hc.
Qed.

(** X11: with the URL flag left at its default, [NewFromFlags] stops at its
    first check, with the error that names the flag and the two environment
    variables and before anything is parsed or read, exactly when both
    KUBERNETES_SERVICE_HOST and KUBERNETES_SERVICE_PORT are empty; with only
    one of them set the default URL passes that check. *)
Theorem X11_default_url_guard (wd : world) (f : flags) (host port : string) :
  fKubeApiURL f = defaultKubeURL host port ->
  (NewFromFlags wd f = (inl (Errorf urlMissingMessage), [])
   <-> host = "" /\ port = "").
Proof.
  intros Hurl. split.
  - intros H. unfold NewFromFlags in H. rewrite Hurl in H.
    destruct (String.eqb (defaultKubeURL host port) ""
              || String.eqb (defaultKubeURL host port) "https://:") eqn:Hg.
    + apply orb_true_iff in Hg as [Hg|Hg]; apply String.eqb_eq in Hg.
      * discriminate Hg.
      * unfold defaultKubeURL in Hg. simpl in Hg.
        apply JoinHostPort_colon. congruence.
    + unfold bind, perform, ret, fail in H.
      repeat case_match; simplify_eq/=.
  - intros [-> ->]. unfold NewFromFlags. rewrite Hurl. reflexivity.
Qed.

Lemma X11_default_url_guard_witness :
  NewFromFlags testWorld unsetFlags = (inl (Errorf urlMissingMessage), [])
  <-> "" = "" /\ "" = "".
Proof.
  exact (X11_default_url_guard testWorld unsetFlags "" "" eq_refl).
Defined.

(** X12: what the insecure flag does.  With [k8sresolver_tls_insecure] set,
    whatever the outcome, the only file [NewFromFlags] can read is the token
    file (the CA file is not opened), and on success the TLS configuration
    skips verification and has no root CAs.  With the flag unset, success
    means the CA file was read and the TLS configuration verifies the server,
    with TLS 1.0 as minimum version and the content of the CA file as the
    only root CA data. *)
Theorem X12_tls_mode (wd : world) (f : flags) (res : error + newCall)
    (log : list call) :
  NewFromFlags wd f = (res, log) ->
  if fInsecureSkipVerify f then
    (forall p, In (CallReadFile p) log -> p = fTokenAuthPath f)
    /\ (forall r, res = inr r ->
        argTLS r = {| InsecureSkipVerify := true; MinVersion := 0;
                      RootCAs := None |})
  else
    forall r, res = inr r ->
      exists ca,
        ReadFile wd (fKubeApiRootCAPath f) = (ca, None)
        /\ In (CallReadFile (fKubeApiRootCAPath f)) log
        /\ argTLS r = {| InsecureSkipVerify := false;
                         MinVersion := VersionTLS10;
                         RootCAs := Some [ca] |}.
Proof.
  intros H. unfold NewFromFlags in H.
  destruct (fInsecureSkipVerify f) eqn:Hi; simpl negb in H.
  - split.
    + intros p Hp. flags_cases H; simpl in Hp; intuition congruence.
    + intros r ->. flags_cases H; reflexivity.
  - intros r ->. flags_cases H; eexists; (split; [reflexivity|]);
      (split; [tauto|reflexivity]).
Qed.

Lemma X12_tls_mode_witness :
  exists ca,
    ReadFile testWorld "/var/run/ca.crt" = (ca, None)
    /\ In (CallReadFile "/var/run/ca.crt")
          [CallParse "https://10.0.0.1:443"; CallReadFile "/var/run/ca.crt";
           CallReadFile "/var/run/token"]
    /\ argTLS testNewCall =
       {| InsecureSkipVerify := false; MinVersion := VersionTLS10;
          RootCAs := Some [ca] |}.
Proof.
  exact (X12_tls_mode testWorld testFlags (inr testNewCall) _ eq_refl
           testNewCall eq_refl).
Defined.

(** X13: the kubeconfig user has priority over the token file.  When
    [k8sresolver_kubeconfig_user] is set and [k8sauth.New] hands back a
    source, a successful [NewFromFlags] uses that source, and the token file
    is not read: after parsing the URL and, unless insecure, reading the CA
    file, the call of [k8sauth.New] is the last thing it does. *)
Theorem X13_kubeconfig_user_first (wd : world) (f : flags) (s : source)
    (r : newCall) (log : list call) :
  fKubeConfigAuthUser f <> "" ->
  k8sauthNew wd "kube_api" (fKubeConfigAuthPath f) (fKubeConfigAuthUser f)
    = (Some s, None) ->
  NewFromFlags wd f = (inr r, log) ->
  argSource r = s
  /\ log = tlsCalls f
           ++ [CallK8sAuth "kube_api" (fKubeConfigAuthPath f)
                           (fKubeConfigAuthUser f)].
Proof.
  intros Hu Hk H. apply String.eqb_neq in Hu.
  unfold NewFromFlags in H. rewrite Hu, Hk in H. simpl negb in H.
  unfold tlsCalls.
  destruct (fInsecureSkipVerify f) eqn:Hi; simpl negb in H;
    flags_cases H; split; reflexivity.
Qed.

Lemma X13_kubeconfig_user_first_witness :
  KubeConfig "admin" = KubeConfig "admin"
  /\ [CallParse "https://10.0.0.1:443"; CallK8sAuth "kube_api" "" "admin"]
     = tlsCalls userFlags ++ [CallK8sAuth "kube_api" "" "admin"].
Proof.
  refine (X13_kubeconfig_user_first testWorld userFlags (KubeConfig "admin")
            {| argURL := "https://10.0.0.1:443";
               argSource := KubeConfig "admin";
               argTLS := {| InsecureSkipVerify := true; MinVersion := 0;
                            RootCAs := None |} |}
            _ _ eq_refl eq_refl).
  discriminate.
Defined.

(** X14: a failing kubeconfig is fatal.  When
    [k8sresolver_kubeconfig_user] is set and [k8sauth.New] returns an error,
    [NewFromFlags] returns an error whatever the token file holds: it does
    not fall back to the token.  Its calls stop at the call of [k8sauth.New]
    at the latest, so the token file is not read after it. *)
Theorem X14_kubeconfig_error_no_fallback (wd : world) (f : flags)
    (src : option source) (e : error) :
  fKubeConfigAuthUser f <> "" ->
  k8sauthNew wd "kube_api" (fKubeConfigAuthPath f) (fKubeConfigAuthUser f)
    = (src, Some e) ->
  (exists e', fst (NewFromFlags wd f) = inl e')
  /\ (exists rest,
        snd (NewFromFlags wd f) ++ rest =
        tlsCalls f ++ [CallK8sAuth "kube_api" (fKubeConfigAuthPath f)
                                   (fKubeConfigAuthUser f)]).
Proof.
  intros Hu Hk. apply String.eqb_neq in Hu.
  unfold NewFromFlags, tlsCalls. rewrite Hu, Hk. simpl negb. split.
  - unfold bind, perform, ret, fail.
    repeat case_match; simplify_eq/=; eexists; reflexivity.
  - unfold bind, perform, ret, fail.
    destruct (fInsecureSkipVerify f); simpl negb;
      repeat case_match; simplify_eq/=; eexists; reflexivity.
Qed.

Lemma X14_kubeconfig_error_no_fallback_witness :
  (exists e', fst (NewFromFlags noKubeConfigWorld userFlags) = inl e')
  /\ (exists rest,
        snd (NewFromFlags noKubeConfigWorld userFlags) ++ rest =
        tlsCalls userFlags ++ [CallK8sAuth "kube_api" "" "admin"]).
Proof.
  refine (X14_kubeconfig_error_no_fallback noKubeConfigWorld userFlags None
            (Failure "no such file") _ eq_refl).
  discriminate.
Defined.

(** X15: without a kubeconfig user the token file is the credential.  When
    [k8sresolver_kubeconfig_user] is empty, [k8sauth.New] is never called,
    and a successful [NewFromFlags] has read the token file and uses its
    whole content as the token of a direct source named kube_api. *)
Theorem X15_token_when_no_user (wd : world) (f : flags)
    (res : error + newCall) (log : list call) :
  fKubeConfigAuthUser f = "" ->
  NewFromFlags wd f = (res, log) ->
  (forall n p u, ~ In (CallK8sAuth n p u) log)
  /\ (forall r, res = inr r ->
      exists token,
        ReadFile wd (fTokenAuthPath f) = (token, None)
        /\ argSource r = Direct "kube_api" token
        /\ log = tlsCalls f ++ [CallReadFile (fTokenAuthPath f)]).
Proof.
  intros Hu H. unfold NewFromFlags in H. rewrite Hu in H.
  change (negb ("" =? "")%string) with false in H. unfold tlsCalls. split.
  - intros n p u Hin. flags_cases H; simpl in Hin; intuition congruence.
  - intros r ->.
    destruct (fInsecureSkipVerify f) eqn:Hi; simpl negb in H;
      flags_cases H; eexists; repeat split; reflexivity.
Qed.

Lemma X15_token_when_no_user_witness :
  exists token,
    ReadFile testWorld "/var/run/token" = (token, None)
    /\ argSource testNewCall = Direct "kube_api" token
    /\ [CallParse "https://10.0.0.1:443"; CallReadFile "/var/run/ca.crt";
        CallReadFile "/var/run/token"]
       = tlsCalls testFlags ++ [CallReadFile "/var/run/token"].
Proof.
  exact (proj2 (X15_token_when_no_user testWorld testFlags (inr testNewCall)
                  _ eq_refl eq_refl) testNewCall eq_refl).
Defined.

(** * The further properties on sample runs *)

Example flakyOutcome_run :
  run testStart flakySchedule = Some flakyOutcome.
Proof. vm_compute. reflexivity. Qed.

Example testLeaked_reached :
  option_map fst
    (run testStart
         [MLoop; MStart None; MDecode 0 (inl undecodable);
          MCancel; MSelectDone; MReturned]) = Some testLeaked.
Proof. reflexivity. Qed.

Lemma X1_backoff_never_reset_witness :
  sleeps (snd flakyOutcome) = seq 0 (length (sleeps (snd flakyOutcome)))
  /\ retryBackoff (w (fst flakyOutcome)) =
     (0 + length (sleeps (snd flakyOutcome)))%nat.
Proof.
  exact (X1_backoff_never_reset false testTarget 0 0 flakySchedule
           (fst flakyOutcome) (snd flakyOutcome) eq_refl).
Defined.

Lemma X2_calls_accounted_witness :
  length (startVersions (snd flakyOutcome)) =
  (length (sleeps (snd flakyOutcome)) + length (tasks (fst flakyOutcome)))%nat.
Proof.
  exact (X2_calls_accounted false testTarget 0 0 flakySchedule
           (fst flakyOutcome) (snd flakyOutcome) eq_refl).
Defined.

Lemma X3_closed_once_per_invocation_witness :
  closeCount 0 (snd flakyOutcome) = 1%nat
  /\ closeCount 1 (snd flakyOutcome) = 1%nat
  /\ closeCount 2 (snd flakyOutcome) = 0%nat
  /\ closesOn (fun g => g) 1 (snd flakyOutcome) = 1%nat
  /\ closesOn (fun _ => 0%nat) 0 (snd flakyOutcome) = 2%nat.
Proof.
  destruct (X3_closed_once_per_invocation false testTarget 0 0 flakySchedule
              (fst flakyOutcome) (snd flakyOutcome) eq_refl) as [H1 H2].
  exact (conj (H1 0%nat)
           (conj (H1 1%nat)
              (conj (H1 2%nat)
                 (conj (H2 (fun g => g) 1%nat)
                       (H2 (fun _ => 0%nat) 0%nat))))).
Defined.

Lemma X4_single_reader_witness :
  (forall g1 g2 t1 t2,
      tasks (fst flakyOutcome) !! g1 = Some t1 ->
      tasks (fst flakyOutcome) !! g2 = Some t2 ->
      ctl t1 = Continue -> ctl t2 = Continue -> g1 = g2)
  /\ (pc (fst flakyOutcome) = AtStart ->
      forall g t', tasks (fst flakyOutcome) !! g = Some t' -> ctl t' = Return).
Proof.
  exact (X4_single_reader false testTarget 0 0 flakySchedule
           (fst flakyOutcome) (snd flakyOutcome) eq_refl).
Defined.

Lemma X5_exits_only_when_cancelled_witness :
  ctxDone (fst flakyOutcome) = true.
Proof.
  exact (X5_exits_only_when_cancelled false testTarget 0 0 flakySchedule
           (fst flakyOutcome) (snd flakyOutcome) eq_refl eq_refl).
Defined.

Lemma X6_started_cancelled_does_nothing_witness :
  startVersions [OCancel] = [] /\ emitted [OCancel] = []
  /\ sleeps [OCancel] = []
  /\ tasks (setPc (startWatchingEndpointsChanges true testTarget 0 0) Exited)
     = []
  /\ w (setPc (startWatchingEndpointsChanges true testTarget 0 0) Exited) =
     {| target := testTarget; retryBackoff := 0;
        lastSeenResourceVersion := 0 |}.
Proof.
  exact (X6_started_cancelled_does_nothing testTarget 0 0 [MCancel; MLoop]
           (setPc (startWatchingEndpointsChanges true testTarget 0 0) Exited)
           [OCancel] eq_refl).
Defined.

Lemma X7_one_result_per_decode_witness :
  (decodedEvents flakySchedule
   <= length (emitted (snd flakyOutcome))
      + pendingCount (tasks (fst flakyOutcome))
   <= decodes flakySchedule)%nat.
Proof.
  exact (X7_one_result_per_decode false testTarget 0 0 flakySchedule
           (fst flakyOutcome) (snd flakyOutcome) eq_refl).
Defined.

Lemma X8_events_in_order_witness :
  run testConnected (eventsSchedule 0 [wrongEvent; expectedEvent]) =
  Some ({| ctxDone := false;
           w := {| target := testTarget; retryBackoff := 0;
                   lastSeenResourceVersion := 123 |};
           pc := AtSelect 0; tasks := [reading] |},
        [OEmit (resultOf wrongEvent); OEmit (resultOf expectedEvent)]).
Proof.
  exact (X8_events_in_order [wrongEvent; expectedEvent] testConnected 0
           eq_refl).
Defined.

Lemma X9_last_seen_in_int_range_witness :
  inIntRange (lastSeenResourceVersion (w (fst flakyOutcome))).
Proof.
  refine (X9_last_seen_in_int_range false testTarget 0 0 flakySchedule
            (fst flakyOutcome) (snd flakyOutcome) _ eq_refl).
  unfold inIntRange. lia.
Defined.

Lemma X10_task_blocked_after_exit_witness :
  pc testLeaked = Exited
  /\ tasks testLeaked !! 0%nat =
     Some {| todo :=
               [SendConnErr (Wrap undecodable decodeMessage);
                SendEvent {| ep := None;
                             err := Some (Wrap (Wrap undecodable decodeMessage)
                                               decodeMessage) |}];
             ctl := Return |}.
Proof.
  exact (X10_task_blocked_after_exit testLeaked 0 _ _ Return [MCancel]
           testLeaked [OCancel] eq_refl eq_refl eq_refl).
Defined.
